(** * Taichi: the constant-folding pass and the state-flow graph

    A shallow embedding of [taichi/transforms/constant_fold.cpp] and of
    [taichi/program/state_flow_graph.h], the properties of them that the
    specification states, and further properties of the code. *)

From stdpp Require Import numbers option list relations gmap sets strings pretty.

#[local] Set Warnings "-clear-no-such-hyp".
#[local] Set Default Proof Using "Type".

Local Open Scope Z_scope.

(** ** [taichi/transforms/constant_fold.cpp] *)

Module ConstantFold.

Section constant_fold.

(** [CompileConfig] is declared in a header that this file takes as given:
    the pass names four of its fields, the others travel as one value. *)
Context {OtherOptions : Type}.

Record CompileConfig : Type := mkCompileConfig {
  debug : bool;
  advanced_optimization : bool;
  constant_folding : bool;
  external_optimization_level : Z;
  other_options : OtherOptions;
}.

(** [Program]: the configuration, and everything else the visitor reaches
    through [program] (the JIT evaluator cache, its kernels, the result
    buffer). *)
Context {ProgramRest : Type}.

Record Program : Type := mkProgram {
  config : CompileConfig;
  program_rest : ProgramRest;
}.

Definition set_config (c : CompileConfig) (p : Program) : Program :=
  {| config := c; program_rest := program_rest p |}.

(** The IR under a node, and [DelayedIRModifier], both from other headers. *)
Context {IRNode DelayedIRModifier : Type}.

(** A fresh [DelayedIRModifier], as the constructor of the folder builds it. *)
Variable empty_modifier : DelayedIRModifier.

(** [node->accept(&folder)]: the traversal that runs the [visit] methods.
    They rewrite usages in the IR at once, queue insertions and erasures in
    [folder.modifier], and compile and launch evaluator kernels through
    [folder.program]. *)
Variable accept :
  IRNode → DelayedIRModifier → Program → IRNode * DelayedIRModifier * Program.

(** [folder.modifier.modify_ir()]: applies what was queued and says whether
    there was anything to apply. *)
Variable modify_ir : DelayedIRModifier → IRNode → bool * DelayedIRModifier * IRNode.

(** What the loop of [run] works on: the IR, the folder's modifier and the
    program the folder points to. *)
Record FoldState : Type := mkFoldState {
  ir : IRNode;
  modifier : DelayedIRModifier;
  program : Program;
}.

(** One turn of [while (true)]: the traversal, then [modify_ir]. *)
Definition fold_pass (st : FoldState) : bool * FoldState :=
  let '(ir1, m1, p1) := accept (ir st) (modifier st) (program st) in
  let '(changed, m2, ir2) := modify_ir m1 ir1 in
  (changed, {| ir := ir2; modifier := m2; program := p1 |}).

(** The loop of [run]; [modified] is the local of that name. The loop has
    no bound of its own: [None] is a run that is still looping when the
    fuel is gone. *)
Fixpoint fold_loop (fuel : nat) (modified : bool) (st : FoldState)
  : option (bool * FoldState) :=
  match fuel with
  | O => None
  | S fuel' =>
      let '(changed, st') := fold_pass st in
      if changed then fold_loop fuel' true st' else Some (modified, st')
  end.

(** The configuration the loop runs under. *)
Definition folding_config (c : CompileConfig) : CompileConfig :=
  {| debug := debug c;
     advanced_optimization := false;
     constant_folding := false;
     external_optimization_level := 0;
     other_options := other_options c |}.

(** The state in which [run] enters its loop. *)
Definition fold_entry (node : IRNode) (p : Program) : FoldState :=
  {| ir := node;
     modifier := empty_modifier;
     program := set_config (folding_config (config p)) p |}.

(** [ConstantFold::run] *)
Definition run (fuel : nat) (node : IRNode) (p : Program)
  : option (bool * IRNode * Program) :=
  let program_compile_config_org := config p in
  '(modified, st) ← fold_loop fuel false (fold_entry node p);
  Some (modified, ir st, set_config program_compile_config_org (program st)).


(** The loop leaves within [S n] turns: one of the first [S n] calls of
    [modify_ir] finds nothing to apply. *)
Fixpoint settles (n : nat) (st : FoldState) : bool :=
  let '(changed, st') := fold_pass st in
  if changed then
    match n with
    | O => false
    | S n' => settles n' st'
    end
  else true.

(** The state after [k] turns of the loop. *)
Fixpoint after_passes (k : nat) (st : FoldState) : FoldState :=
  match k with
  | O => st
  | S k' => after_passes k' (fold_pass st).2
  end.

(** *** The loop *)

Lemma fold_loop_settles n fuel modified st :
  settles n st = true → (n < fuel)%nat →
  ∃ r, fold_loop fuel modified st = Some r.
Proof.
  revert fuel modified st.
  induction n as [|n IH]; intros fuel modified st Hs Hlt;
    (destruct fuel as [|fuel]; [lia|]); simpl in *;
    destruct (fold_pass st) as [[] st']; eauto; try done.
  apply IH; [done|lia].
Qed.

Lemma fold_loop_fuel fuel fuel' modified st r :
  fold_loop fuel modified st = Some r → (fuel ≤ fuel')%nat →
  fold_loop fuel' modified st = Some r.
Proof.
  revert fuel' modified st.
  induction fuel as [|fuel IH]; intros fuel' modified st Hr Hle; [done|].
  destruct fuel' as [|fuel']; [lia|]. simpl in *.
  destruct (fold_pass st) as [[] st']; [|done].
  apply IH; [done|lia].
Qed.


Lemma run_fuel fuel fuel' node p r :
  run fuel node p = Some r → (fuel ≤ fuel')%nat → run fuel' node p = Some r.
Proof.
  unfold run. intros Hr Hle.
  destruct (fold_loop fuel false (fold_entry node p)) as [[b st]|] eqn:Hl;
    [|done].
  by rewrite (fold_loop_fuel _ _ _ _ _ Hl Hle).
Qed.

(** A traversal that leaves the configuration alone leaves it alone in every
    turn of the loop. *)
Lemma fold_loop_config fuel modified st b st' :
  (∀ i m q, config (accept i m q).2 = config q) →
  fold_loop fuel modified st = Some (b, st') →
  config (program st') = config (program st).
Proof.
  intros Hkeep. revert modified st.
  induction fuel as [|fuel IH]; intros modified st Hr; [done|].
  simpl in Hr. unfold fold_pass in Hr.
  pose proof (Hkeep (ir st) (modifier st) (program st)) as Hk.
  destruct (accept (ir st) (modifier st) (program st)) as [[ir1 m1] p1].
  destruct (modify_ir m1 ir1) as [[changed m2] ir2]. simpl in Hk.
  destruct changed.
  - apply IH in Hr. by rewrite Hr.
  - by simplify_eq/=.
Qed.

(** *** C10 *)

Lemma after_passes_config k st :
  (∀ i m q, config (accept i m q).2 = config q) →
  config (program (after_passes k st)) = config (program st).
Proof.
  intros Hkeep. revert st. induction k as [|k IH]; intros st; [done|].
  simpl. rewrite IH. unfold fold_pass.
  pose proof (Hkeep (ir st) (modifier st) (program st)) as Hk.
  destruct (accept (ir st) (modifier st) (program st)) as [[ir1 m1] p1].
  by destruct (modify_ir m1 ir1) as [[changed m2] ir2].
Qed.

(** C10. [ConstantFold::run] leaves [program->config] as it found it. Its
    loop starts under the configuration of the call with
    [advanced_optimization] set to [false], [constant_folding] set to
    [false] and [external_optimization_level] set to 0, and with every
    other field kept; when the traversal leaves the configuration alone,
    this is the configuration after every turn of the loop, and the one
    under which the loop ends. Whenever [run] returns, the configuration
    of the program is the one it was called with; and [run] does return,
    with one and the same result for every larger fuel, as soon as one turn
    of the loop finds nothing to change. *)
Theorem run_restores_config (n : nat) (node : IRNode) (p : Program) :
  settles n (fold_entry node p) = true →
  config (program (fold_entry node p))
    = {| debug := debug (config p);
         advanced_optimization := false;
         constant_folding := false;
         external_optimization_level := 0;
         other_options := other_options (config p) |} ∧
  (∀ fuel modified node' p',
      run fuel node p = Some (modified, node', p') → config p' = config p) ∧
  (∃ modified node' p',
      config p' = config p ∧
      ∀ fuel, (n < fuel)%nat → run fuel node p = Some (modified, node', p')) ∧
  ((∀ i m q, config (accept i m q).2 = config q) →
   (∀ k,
      config (program (after_passes k (fold_entry node p)))
      = {| debug := debug (config p);
           advanced_optimization := false;
           constant_folding := false;
           external_optimization_level := 0;
           other_options := other_options (config p) |}) ∧
   (∀ fuel modified st,
      fold_loop fuel false (fold_entry node p) = Some (modified, st) →
      config (program st)
      = {| debug := debug (config p);
           advanced_optimization := false;
           constant_folding := false;
           external_optimization_level := 0;
           other_options := other_options (config p) |})).
Proof.
  intros Hs. split; [done|]. split; [|split].
  - intros fuel modified node' p' Hr. unfold run in Hr.
    destruct (fold_loop fuel false (fold_entry node p)) as [[b st]|];
      simplify_eq/=. done.
  - destruct (fold_loop_settles n (S n) false _ Hs) as [[b st] Hl]; [lia|].
    exists b, (ir st), (set_config (config p) (program st)).
    split; [done|]. intros fuel Hlt.
    apply (run_fuel (S n)); [|lia]. unfold run. by rewrite Hl.
  - intros Hkeep. split.
    + intros k. by rewrite after_passes_config.
    + intros fuel modified st Hl.
      by rewrite (fold_loop_config _ _ _ _ _ Hkeep Hl).
Qed.

(** *** C9 *)


(** *** The turns of the loop *)

Lemma fold_loop_turns fuel modified st b st' :
  fold_loop fuel modified st = Some (b, st') ↔
  ∃ k, (k < fuel)%nat ∧
    (∀ j, (j < k)%nat → (fold_pass (after_passes j st)).1 = true) ∧
    (fold_pass (after_passes k st)).1 = false ∧
    b = modified || bool_decide (0 < k)%nat ∧
    st' = after_passes (S k) st.
Proof.
  revert modified st b st'.
  induction fuel as [|fuel IH]; intros modified st b st'.
  { split; [done|]. intros (k & ? & _). lia. }
  simpl. destruct (fold_pass st) as [changed st1] eqn:Hp.
  destruct changed.
  - rewrite IH. split.
    + intros (k & Hk & Hbefore & Hlast & -> & ->).
      exists (S k). simpl. rewrite Hp. simpl.
      split; [lia|]. split; [|by rewrite orb_true_r].
      intros [|j] Hj; simpl; rewrite Hp; [done|]. apply Hbefore. lia.
    + intros (k & Hk & Hbefore & Hlast & -> & ->).
      destruct k as [|k]; simpl in *; rewrite Hp in *; [done|].
      exists k. split; [lia|]. split; [|by rewrite orb_true_r].
      intros j Hj. specialize (Hbefore (S j)). simpl in Hbefore.
      rewrite Hp in Hbefore. apply Hbefore. lia.
  - split.
    + intros [= <- <-]. exists 0%nat. simpl. rewrite Hp. simpl.
      split; [lia|]. split; [intros; lia|]. by rewrite orb_false_r.
    + intros (k & Hk & Hbefore & Hlast & -> & ->).
      destruct k as [|k].
      * simpl. by rewrite orb_false_r.
      * assert ((fold_pass (after_passes 0 st)).1 = true) as Hfirst
          by (apply Hbefore; lia).
        simpl in Hfirst. by rewrite Hp in Hfirst.
Qed.

(** X1. [ConstantFold::run] stops at the first turn of its loop in which
    [modify_ir] finds nothing to apply: it returns exactly when there is a
    turn [k], within the fuel, such that every turn before it changed the IR
    and turn [k] did not. Its result is [true] exactly when [k] is not the
    first turn, the IR it leaves is the one after turn [k], and the program
    is the one after turn [k] with the configuration of the call put
    back. *)
Theorem run_stops_at_first_quiet_pass (fuel : nat) (node : IRNode)
    (p : Program) (b : bool) (node' : IRNode) (p' : Program) :
  run fuel node p = Some (b, node', p') ↔
  ∃ k, (k < fuel)%nat ∧
    (∀ j, (j < k)%nat →
       (fold_pass (after_passes j (fold_entry node p))).1 = true) ∧
    (fold_pass (after_passes k (fold_entry node p))).1 = false ∧
    b = bool_decide (0 < k)%nat ∧
    node' = ir (after_passes (S k) (fold_entry node p)) ∧
    p' = set_config (config p)
           (program (after_passes (S k) (fold_entry node p))).
Proof.
  unfold run. split.
  - destruct (fold_loop fuel false (fold_entry node p)) as [[b0 st]|] eqn:Hl;
      [|done].
    intros [= <- <- <-].
    apply fold_loop_turns in Hl as (k & Hk & Hbefore & Hlast & -> & ->).
    by exists k.
  - intros (k & Hk & Hbefore & Hlast & -> & -> & ->).
    assert (fold_loop fuel false (fold_entry node p)
            = Some (bool_decide (0 < k)%nat,
                    after_passes (S k) (fold_entry node p))) as ->; [|done].
    apply fold_loop_turns. by exists k.
Qed.

(** X2. What [ConstantFold::run] computes does not depend on the values
    that [advanced_optimization], [constant_folding] and
    [external_optimization_level] have in the configuration of the call:
    with any other values of the three, it returns under the same fuel, with
    the same result and the same IR, and with the same program up to the
    configuration, which is the one of the call. *)
Theorem run_ignores_overridden_options (fuel : nat) (node : IRNode)
    (p : Program) (a c : bool) (l : Z) :
  run fuel node
    (set_config
       {| debug := debug (config p);
          advanced_optimization := a;
          constant_folding := c;
          external_optimization_level := l;
          other_options := other_options (config p) |} p)
  = (λ r, (r.1,
           set_config
             {| debug := debug (config p);
                advanced_optimization := a;
                constant_folding := c;
                external_optimization_level := l;
                other_options := other_options (config p) |} r.2))
      <$> run fuel node p.
Proof.
  unfold run. simpl.
  change (fold_entry node (set_config _ p)) with (fold_entry node p).
  by destruct (fold_loop fuel false (fold_entry node p)) as [[b st]|].
Qed.

End constant_fold.

(** *** An instance

    An IR that is the count of the statements still to fold: a traversal
    queues one erasure while there is one, and [modify_ir] applies it. *)

Definition counting_accept (ir m : nat) (p : @Program unit unit)
  : nat * nat * @Program unit unit :=
  (ir, match ir with O => O | S _ => 1%nat end, p).

Definition counting_modify_ir (m ir : nat) : bool * nat * nat :=
  (negb (Nat.eqb m 0), 0%nat, (ir - m)%nat).

Definition optimizing_config : @CompileConfig unit :=
  {| debug := false; advanced_optimization := true; constant_folding := true;
     external_optimization_level := 3; other_options := tt |}.


Definition optimizing_program : @Program unit unit :=
  {| config := optimizing_config; program_rest := tt |}.

Lemma run_restores_config_witness :
  settles counting_accept counting_modify_ir 2
    (fold_entry 0%nat 2%nat optimizing_program) = true ∧
  config (program (fold_entry 0%nat 2%nat optimizing_program))
    = {| debug := false; advanced_optimization := false;
         constant_folding := false; external_optimization_level := 0;
         other_options := tt |} ∧
  (∀ fuel modified node' p',
     run 0%nat counting_accept counting_modify_ir fuel 2%nat optimizing_program
       = Some (modified, node', p') →
     config p' = optimizing_config) ∧
  (∃ modified node' p',
     config p' = optimizing_config ∧
     ∀ fuel, (2 < fuel)%nat →
       run 0%nat counting_accept counting_modify_ir fuel 2%nat optimizing_program
         = Some (modified, node', p')) ∧
  ((∀ i m q, config (counting_accept i m q).2 = config q) →
   (∀ k,
      config (program (after_passes counting_accept counting_modify_ir k
                         (fold_entry 0%nat 2%nat optimizing_program)))
      = {| debug := false; advanced_optimization := false;
           constant_folding := false; external_optimization_level := 0;
           other_options := tt |}) ∧
   (∀ fuel modified st,
      fold_loop counting_accept counting_modify_ir fuel false
        (fold_entry 0%nat 2%nat optimizing_program) = Some (modified, st) →
      config (program st)
      = {| debug := false; advanced_optimization := false;
           constant_folding := false; external_optimization_level := 0;
           other_options := tt |})).
Proof.
  split; [reflexivity|].
  apply (run_restores_config 0%nat counting_accept counting_modify_ir
           2 2%nat optimizing_program).
  reflexivity.
Defined.


End ConstantFold.

(** ** [taichi/transforms/constant_fold.cpp]: the visitor *)

Module Folder.

(** *** Types of the IR

    [PrimitiveTypeID], [DataType] and [TypedConstant] are declared in
    headers that the pass takes as given. The visitor names six primitive
    types; [other_primitive] stands for the remaining ones ([i8] and the
    like), [non_primitive] for the types that [is_primitive] rejects
    whatever the id. *)
Inductive PrimitiveTypeID : Type :=
  | i32 | i64 | u32 | u64 | f32 | f64
  | other_primitive (n : nat).

Inductive DataType : Type :=
  | primitive (id : PrimitiveTypeID)
  | non_primitive (n : nat).

#[global] Instance PrimitiveTypeID_eq_dec : EqDecision PrimitiveTypeID.
Proof. solve_decision. Defined.

#[global] Instance DataType_eq_dec : EqDecision DataType.
Proof. solve_decision. Defined.

#[global] Instance PrimitiveTypeID_countable : Countable PrimitiveTypeID.
Proof.
  refine (inj_countable'
    (λ id, match id with
           | i32 => 0 | i64 => 1 | u32 => 2 | u64 => 3 | f32 => 4 | f64 => 5
           | other_primitive n => 6 + n
           end)%nat
    (λ n, match n with
          | 0 => i32 | 1 => i64 | 2 => u32 | 3 => u64 | 4 => f32 | 5 => f64
          | S (S (S (S (S (S n))))) => other_primitive n
          end)%nat _).
  by intros [].
Defined.

#[global] Instance DataType_countable : Countable DataType.
Proof.
  refine (inj_countable'
    (λ t, match t with primitive id => inl id | non_primitive n => inr n end)
    (λ x, match x with inl id => primitive id | inr n => non_primitive n end)
    _).
  by intros [].
Defined.

(** [dt->is_primitive(id)] *)
Definition is_primitive (dt : DataType) (id : PrimitiveTypeID) : bool :=
  match dt with
  | primitive id' => bool_decide (id' = id)
  | non_primitive _ => false
  end.

(** [TypedConstant]: a type and a union of 64 bits. [value_bits] is the
    union read as an unsigned 64-bit integer. *)
Record TypedConstant : Type := mkTypedConstant {
  dt : DataType;
  value_bits : Z;
}.

(** The member [val_u64] of the union, read. *)
Definition val_u64 (c : TypedConstant) : Z := value_bits c.

(** The assignment to the member [val_i64]: the same 64 bits, in two's
    complement. *)
Definition set_val_i64 (x : Z) (c : TypedConstant) : TypedConstant :=
  {| dt := dt c; value_bits := x `mod` 2 ^ 64 |}.

(** An assignment to the union as a whole, or to one of its members: the
    bits change, [dt] is as it was. *)
Definition set_value_bits (x : Z) (c : TypedConstant) : TypedConstant :=
  {| dt := dt c; value_bits := x |}.

(** A [Stmt *] as the visitor reads it: [cast<ConstStmt>()], which is null
    unless the statement is a constant and then gives its first lane
    [val[0]], and [ret_type]. *)
Record Stmt : Type := mkStmt {
  as_ConstStmt : option TypedConstant;
  ret_type : DataType;
}.

(** The statements visited. Operation types are the integers that
    [(int)stmt->op_type] gives. The fields [ret_type] and [width()] that
    every statement has carry the name of their statement here. *)
Record BinaryOpStmt : Type := mkBinaryOpStmt {
  binary_op_type : Z;
  binary_lhs : Stmt;
  binary_rhs : Stmt;
  binary_ret_type : DataType;
  binary_width : Z;
}.

Record UnaryOpStmt : Type := mkUnaryOpStmt {
  unary_op_type : Z;
  operand : Stmt;
  cast_type : DataType;
  unary_ret_type : DataType;
  unary_width : Z;
}.

Record BitExtractStmt : Type := mkBitExtractStmt {
  input : Stmt;
  bit_begin : Z;
  bit_end : Z;
  bit_extract_width : Z;
}.

(** What a [visit] does to its statement: nothing; or
    [replace_usages_with(stmt->operand)] and [modifier.erase(stmt)]; or
    [replace_usages_with(evaluated)], [modifier.insert_before(stmt,
    evaluated)] and [modifier.erase(stmt)] for a new constant statement
    [evaluated]. *)
Inductive Rewrite : Type :=
  | unchanged
  | replaced_with_operand
  | replaced_with_constant (evaluated : TypedConstant).

(** *** Evaluator kernels *)

(** The statements that the body of an evaluator kernel is made of, as
    [Stmt::make] builds them; a pointer to a statement is that statement.
    [cast_type] is [None] where the code leaves the field as the constructor
    set it. *)
Inductive KernelStmt : Type :=
  | make_ArgLoadStmt (arg_id : Z) (dt : DataType) (is_ptr : bool)
  | make_BinaryOpStmt (op : Z) (lhs rhs : KernelStmt)
  | make_UnaryOpStmt (op : Z) (operand : KernelStmt)
      (cast_type : option DataType)
  | make_ReturnStmt (v : KernelStmt).

(** [Kernel], as far as [get_jit_evaluator_kernel] sets it: the name, the
    statements that [func] inserts, and what [insert_ret] and [insert_arg]
    collect. *)
Record Kernel : Type := mkKernel {
  name : string;
  ir : list KernelStmt;
  rets : list DataType;
  args : list (DataType * bool);
  is_evaluator : bool;
}.

(** The statements a statement points to. *)
Definition operands (s : KernelStmt) : list KernelStmt :=
  match s with
  | make_ArgLoadStmt _ _ _ => []
  | make_BinaryOpStmt _ l r => [l; r]
  | make_UnaryOpStmt _ o _ => [o]
  | make_ReturnStmt v => [v]
  end.

Definition is_ArgLoadStmt (s : KernelStmt) : bool :=
  match s with make_ArgLoadStmt _ _ _ => true | _ => false end.

(** *** Shifts of 64-bit integers

    [x >> n] on a 64-bit integer, [1LL << n] and the subtraction of two
    [int]s; [None] where the operation has no defined result (a shift
    count outside the width, a signed overflow). *)
Definition shift_right (x n : Z) : option Z :=
  if bool_decide (0 ≤ n < 64) then Some (x ≫ n) else None.

Definition one_shift_left (n : Z) : option Z :=
  if bool_decide (0 ≤ n < 63) then Some (1 ≪ n) else None.

Definition int_sub (a b : Z) : option Z :=
  if bool_decide (- 2 ^ 31 ≤ a - b < 2 ^ 31) then Some (a - b) else None.

(** The expression of [visit] for [BitExtractStmt], the same in both branches:
    [(v >> bit_begin) & ((1LL << (bit_end - bit_begin)) - 1)]. *)
Definition extract_bits (v bit_begin bit_end : Z) : option Z :=
  shifted ← shift_right v bit_begin;
  n ← int_sub bit_end bit_begin;
  one ← one_shift_left n;
  Some (Z.land shifted (one - 1)).

Section folder.

(** [std::thread::id], and the state of the program apart from the cache of
    evaluator kernels. *)
Context `{Countable ThreadId} {ProgramState : Type}.

(** [JITEvaluatorId] *)
Record JITEvaluatorId : Type := mkJITEvaluatorId {
  thread_id : ThreadId;
  op : Z;
  ret : DataType;
  lhs : DataType;
  rhs : DataType;
  is_binary : bool;
}.

#[global] Instance JITEvaluatorId_eq_dec : EqDecision JITEvaluatorId.
Proof using Type*. solve_decision. Defined.

#[global] Instance JITEvaluatorId_countable : Countable JITEvaluatorId.
Proof using Type*.
  refine (inj_countable'
    (λ id, (thread_id id, op id, ret id, lhs id, rhs id, is_binary id))
    (λ t, let '(t, o, r, l, r', b) := t in mkJITEvaluatorId t o r l r' b) _).
  by intros [].
Defined.

(** [Program], as the visitor reaches it: [jit_evaluator_cache], and the
    rest. The mutex [jit_evaluator_cache_mut] guards the cache against
    other threads; this is the code as one thread runs it. *)
Record Program : Type := mkProgram {
  jit_evaluator_cache : gmap JITEvaluatorId Kernel;
  program_state : ProgramState;
}.

(** What the code takes from elsewhere. *)

(** [std::this_thread::get_id()] *)
Variable this_thread : ThreadId.

(** [unary_op_is_cast], [UnaryOpStmt::is_cast] and
    [UnaryOpType::cast_bits]. *)
Variable unary_op_is_cast : Z → bool.
Variable is_cast : UnaryOpStmt → bool.
Variable cast_bits : Z.

(** The constructor [Kernel(program, func, name)] and the launch
    of the kernel on the raw arguments of [launch_ctx]: what they
    do to the program. Neither reaches the cache: both run while
    [jit_evaluator_cache_mut] is held. *)
Variable Kernel_new : list KernelStmt → string → ProgramState → ProgramState.
Variable launch : Kernel → list Z → ProgramState → ProgramState.

(** [program->fetch_result<int64_t>(0)] *)
Variable fetch_result : ProgramState → Z.

(** The bits of a [TypedConstant] that was constructed from its type
    alone. *)
Variable fresh_bits : Z.

(** The 64 bits of the union of [new_constant] after
    [new_constant.val_f32 = float32(c.val_cast_to_float64())] and after
    [new_constant.val_f64 = c.val_cast_to_float64()], from [c] and from the
    bits before the assignment. The assignment to a member of the union
    leaves [dt] alone. *)
Variable val_f32_assigned : TypedConstant → Z → Z.
Variable val_f64_assigned : TypedConstant → Z → Z.

(** [is_signed], [TypedConstant::val_int], [TypedConstant::val_uint] and
    the constructor [TypedConstant(dt, value)]. *)
Variable is_signed : DataType → bool.
Variable val_int : TypedConstant → Z.
Variable val_uint : TypedConstant → Z.
Variable TypedConstant_of : DataType → Z → TypedConstant.

(** [TypedConstant new_constant(dst_type)] *)
Definition TypedConstant_new (dst_type : DataType) : TypedConstant :=
  {| dt := dst_type; value_bits := fresh_bits |}.

(** The statements that the lambda [func] of [get_jit_evaluator_kernel]
    inserts, in their order. *)
Definition func (id : JITEvaluatorId) : list KernelStmt :=
  let lhstmt := make_ArgLoadStmt 0 (lhs id) false in
  let rhstmt := make_ArgLoadStmt 1 (rhs id) false in
  let oper :=
    if is_binary id then make_BinaryOpStmt (op id) lhstmt rhstmt
    else make_UnaryOpStmt (op id) lhstmt
           (if unary_op_is_cast (op id) then Some (rhs id) else None) in
  let ret_stmt := make_ReturnStmt oper in
  [lhstmt] ++ (if is_binary id then [rhstmt] else []) ++ [oper; ret_stmt].

(** The kernel that [get_jit_evaluator_kernel] stores for [id]. *)
Definition evaluator_kernel (kernel_name : string) (id : JITEvaluatorId)
  : Kernel :=
  {| name := kernel_name;
     ir := func id;
     rets := [ret id];
     args := [(lhs id, false)]
             ++ (if is_binary id then [(rhs id, false)] else []);
     is_evaluator := true |}.

(** [ConstantFold::get_jit_evaluator_kernel] *)
Definition get_jit_evaluator_kernel (id : JITEvaluatorId) (p : Program)
  : Kernel * Program :=
  let cache := jit_evaluator_cache p in
  match cache !! id with
  | Some ker => (ker, p)
  | None =>
      let kernel_name := "jit_evaluator_" +:+ pretty (size cache) in
      let ker := evaluator_kernel kernel_name id in
      (ker,
       {| jit_evaluator_cache := <[id := ker]> cache;
          program_state := Kernel_new (func id) kernel_name (program_state p) |})
  end.

(** [ConstantFold::is_good_type] *)
Definition is_good_type (dt : DataType) : bool :=
  if is_primitive dt i32 || is_primitive dt i64 || is_primitive dt u32
     || is_primitive dt u64 || is_primitive dt f32 || is_primitive dt f64
  then true
  else false.

(** [ConstantFold::jit_evaluate_binary_op]; [ret] is passed by reference,
    and is returned. The kernel is launched on the raw arguments that
    [set_arg_raw] put in the context. *)
Definition jit_evaluate_binary_op (ret : TypedConstant) (stmt : BinaryOpStmt)
    (lhs rhs : TypedConstant) (p : Program) : bool * TypedConstant * Program :=
  if negb (is_good_type (dt ret)) then (false, ret, p)
  else
    let id := mkJITEvaluatorId this_thread (binary_op_type stmt) (dt ret)
                (dt lhs) (dt rhs) true in
    let '(ker, p) := get_jit_evaluator_kernel id p in
    let s := launch ker [val_u64 lhs; val_u64 rhs] (program_state p) in
    (true, set_val_i64 (fetch_result s) ret,
     {| jit_evaluator_cache := jit_evaluator_cache p; program_state := s |}).

(** [ConstantFold::jit_evaluate_unary_op] *)
Definition jit_evaluate_unary_op (ret : TypedConstant) (stmt : UnaryOpStmt)
    (operand : TypedConstant) (p : Program) : bool * TypedConstant * Program :=
  if negb (is_good_type (dt ret)) then (false, ret, p)
  else
    let id := mkJITEvaluatorId this_thread (unary_op_type stmt) (dt ret)
                (dt operand) (cast_type stmt) false in
    let '(ker, p) := get_jit_evaluator_kernel id p in
    let s := launch ker [val_u64 operand] (program_state p) in
    (true, set_val_i64 (fetch_result s) ret,
     {| jit_evaluator_cache := jit_evaluator_cache p; program_state := s |}).

(** [ConstantFold::visit] for [BinaryOpStmt] *)
Definition visit_BinaryOpStmt (stmt : BinaryOpStmt) (p : Program)
  : Rewrite * Program :=
  match as_ConstStmt (binary_lhs stmt), as_ConstStmt (binary_rhs stmt) with
  | Some lhs, Some rhs =>
      if bool_decide (binary_width stmt ≠ 1) then (unchanged, p)
      else
        let dst_type := binary_ret_type stmt in
        let new_constant := TypedConstant_new dst_type in
        let '(evaluated, new_constant, p) :=
          jit_evaluate_binary_op new_constant stmt lhs rhs p in
        if evaluated then (replaced_with_constant new_constant, p)
        else (unchanged, p)
  | _, _ => (unchanged, p)
  end.

(** [ConstantFold::visit] for [UnaryOpStmt] *)
Definition visit_UnaryOpStmt (stmt : UnaryOpStmt) (p : Program)
  : Rewrite * Program :=
  if is_cast stmt && bool_decide (cast_type stmt = ret_type (operand stmt))
  then (replaced_with_operand, p)
  else
    match as_ConstStmt (operand stmt) with
    | None => (unchanged, p)
    | Some c =>
        if bool_decide (unary_width stmt ≠ 1) then (unchanged, p)
        else
          let new_constant := TypedConstant_new (unary_ret_type stmt) in
          let cast : option TypedConstant :=
            if is_cast stmt then
              if bool_decide (unary_op_type stmt = cast_bits)
              then Some (set_value_bits (value_bits c) new_constant)
              else if bool_decide (cast_type stmt = primitive f32)
              then Some (set_value_bits
                           (val_f32_assigned c (value_bits new_constant))
                           new_constant)
              else if bool_decide (cast_type stmt = primitive f64)
              then Some (set_value_bits
                           (val_f64_assigned c (value_bits new_constant))
                           new_constant)
              else None
            else None in
          match cast with
          | Some new_constant => (replaced_with_constant new_constant, p)
          | None =>
              let '(evaluated, new_constant, p) :=
                jit_evaluate_unary_op new_constant stmt c p in
              if evaluated then (replaced_with_constant new_constant, p)
              else (unchanged, p)
          end
    end.

(** [ConstantFold::visit] for [BitExtractStmt]; [None] where a shift has no
    defined result. *)
Definition visit_BitExtractStmt (stmt : BitExtractStmt) : option Rewrite :=
  match as_ConstStmt (input stmt) with
  | None => Some unchanged
  | Some c =>
      if bool_decide (bit_extract_width stmt ≠ 1) then Some unchanged
      else
        let v := if is_signed (dt c) then val_int c else val_uint c in
        result ← extract_bits v (bit_begin stmt) (bit_end stmt);
        Some (replaced_with_constant (TypedConstant_of (dt c) result))
  end.

(** A program whose cache is empty, and the program after the kernels for
    a list of ids have been asked for in turn. *)
Definition no_kernels (s : ProgramState) : Program :=
  {| jit_evaluator_cache := ∅; program_state := s |}.

Definition after_requests (ids : list JITEvaluatorId) (p : Program)
  : Program :=
  foldl (λ p id, (get_jit_evaluator_kernel id p).2) p ids.

(** Every statement of a kernel body points to statements inserted before
    it. *)
Definition closed_body (body : list KernelStmt) : Prop :=
  ∀ i s o, body !! i = Some s → o ∈ operands s →
    ∃ j, (j < i)%nat ∧ body !! j = Some o.

(** A cache whose kernels are the evaluators of their keys, numbered below
    its size in their names, no two with the same name. *)
Definition numbered (cache : gmap JITEvaluatorId Kernel) : Prop :=
  (∀ id ker, cache !! id = Some ker →
     ∃ n : nat, (n < size cache)%nat ∧
       ker = evaluator_kernel ("jit_evaluator_" +:+ pretty n) id) ∧
  (∀ id1 id2 k1 k2, cache !! id1 = Some k1 → cache !! id2 = Some k2 →
     name k1 = name k2 → id1 = id2).

(** *** The cache of evaluator kernels *)

Lemma get_jit_evaluator_kernel_lookup id p :
  jit_evaluator_cache (get_jit_evaluator_kernel id p).2 !! id
  = Some (get_jit_evaluator_kernel id p).1.
Proof.
  unfold get_jit_evaluator_kernel.
  destruct (jit_evaluator_cache p !! id) eqn:Hid; simpl; [done|].
  by rewrite lookup_insert_eq.
Qed.

Lemma get_jit_evaluator_kernel_hit id p ker :
  jit_evaluator_cache p !! id = Some ker →
  get_jit_evaluator_kernel id p = (ker, p).
Proof. unfold get_jit_evaluator_kernel. by intros ->. Qed.

Lemma get_jit_evaluator_kernel_other id id' p :
  id' ≠ id →
  jit_evaluator_cache (get_jit_evaluator_kernel id p).2 !! id'
  = jit_evaluator_cache p !! id'.
Proof.
  intros Hne. unfold get_jit_evaluator_kernel.
  destruct (jit_evaluator_cache p !! id) eqn:Hid; simpl; [done|].
  by rewrite lookup_insert_ne.
Qed.

Lemma get_jit_evaluator_kernel_miss id p :
  jit_evaluator_cache p !! id = None →
  size (jit_evaluator_cache (get_jit_evaluator_kernel id p).2)
    = S (size (jit_evaluator_cache p)) ∧
  (get_jit_evaluator_kernel id p).1
    = evaluator_kernel
        ("jit_evaluator_" +:+ pretty (size (jit_evaluator_cache p))) id.
Proof.
  intros Hid. unfold get_jit_evaluator_kernel. rewrite Hid. simpl.
  by rewrite map_size_insert_None.
Qed.

(** X3. A kernel that was asked for is in the cache: asking again gives the
    same kernel and changes nothing, and a kernel found in the cache is
    returned with the program as it was. Asking for one id leaves the
    entries of all others alone. A kernel that was not there enlarges the
    cache by one entry and is named [jit_evaluator_n], [n] being the size
    of the cache before. *)
Theorem get_jit_evaluator_kernel_cached (id : JITEvaluatorId) (p : Program) :
  jit_evaluator_cache (get_jit_evaluator_kernel id p).2 !! id
    = Some (get_jit_evaluator_kernel id p).1 ∧
  get_jit_evaluator_kernel id (get_jit_evaluator_kernel id p).2
    = get_jit_evaluator_kernel id p ∧
  (∀ id', id' ≠ id →
     jit_evaluator_cache (get_jit_evaluator_kernel id p).2 !! id'
     = jit_evaluator_cache p !! id') ∧
  (∀ ker, jit_evaluator_cache p !! id = Some ker →
     get_jit_evaluator_kernel id p = (ker, p)) ∧
  (jit_evaluator_cache p !! id = None →
     size (jit_evaluator_cache (get_jit_evaluator_kernel id p).2)
       = S (size (jit_evaluator_cache p)) ∧
     name (get_jit_evaluator_kernel id p).1
       = "jit_evaluator_" +:+ pretty (size (jit_evaluator_cache p))).
Proof.
  split; [apply get_jit_evaluator_kernel_lookup|].
  split; [|split; [|split]].
  - rewrite (get_jit_evaluator_kernel_hit id _ _
               (get_jit_evaluator_kernel_lookup id p)).
    by destruct (get_jit_evaluator_kernel id p).
  - intros id'. apply get_jit_evaluator_kernel_other.
  - apply get_jit_evaluator_kernel_hit.
  - intros Hid. destruct (get_jit_evaluator_kernel_miss id p Hid) as [Hs Hk].
    by rewrite Hs, Hk.
Qed.

Lemma numbered_empty : numbered ∅.
Proof.
  split.
  - intros id ker Hl. by rewrite lookup_empty in Hl.
  - intros id1 id2 k1 k2 Hl. by rewrite lookup_empty in Hl.
Qed.

Lemma kernel_name_inj (n m : nat) :
  "jit_evaluator_" +:+ pretty n = "jit_evaluator_" +:+ pretty m → n = m.
Proof.
  intros Heq. apply (inj (String.app _)) in Heq. by apply (inj pretty) in Heq.
Qed.

Lemma numbered_get_jit_evaluator_kernel id p :
  numbered (jit_evaluator_cache p) →
  numbered (jit_evaluator_cache (get_jit_evaluator_kernel id p).2).
Proof.
  intros [Hker Hinj].
  destruct (jit_evaluator_cache p !! id) as [ker|] eqn:Hid.
  { by rewrite (get_jit_evaluator_kernel_hit _ _ _ Hid). }
  unfold get_jit_evaluator_kernel. rewrite Hid. simpl. split.
  - intros id' ker'. rewrite map_size_insert_None by done.
    destruct (decide (id' = id)) as [->|Hne].
    + rewrite lookup_insert_eq. intros [= <-].
      exists (size (jit_evaluator_cache p)). split; [lia|done].
    + rewrite lookup_insert_ne by done. intros Hl.
      destruct (Hker _ _ Hl) as (n & Hn & ->). exists n. split; [lia|done].
  - intros id1 id2 k1 k2.
    destruct (decide (id1 = id)) as [->|Hne1],
             (decide (id2 = id)) as [->|Hne2]; [done|..].
    + rewrite lookup_insert_eq, lookup_insert_ne by done.
      intros [= <-] Hl2 Hname. destruct (Hker _ _ Hl2) as (n & Hn & ->).
      simpl in Hname. apply kernel_name_inj in Hname. lia.
    + rewrite lookup_insert_eq, lookup_insert_ne by done.
      intros Hl1 [= <-] Hname. destruct (Hker _ _ Hl1) as (n & Hn & ->).
      simpl in Hname. apply kernel_name_inj in Hname. lia.
    + rewrite !lookup_insert_ne by done. apply Hinj.
Qed.

Lemma dom_get_jit_evaluator_kernel id p :
  dom (jit_evaluator_cache (get_jit_evaluator_kernel id p).2)
  = {[id]} ∪ dom (jit_evaluator_cache p).
Proof.
  unfold get_jit_evaluator_kernel.
  destruct (jit_evaluator_cache p !! id) as [ker|] eqn:Hid; simpl.
  - apply elem_of_dom_2 in Hid.
    apply set_eq. intros x. rewrite elem_of_union, elem_of_singleton.
    split; [by right|]. by intros [->|].
  - by rewrite dom_insert_L.
Qed.

Lemma after_requests_numbered ids p :
  numbered (jit_evaluator_cache p) →
  numbered (jit_evaluator_cache (after_requests ids p)) ∧
  dom (jit_evaluator_cache (after_requests ids p))
    = list_to_set ids ∪ dom (jit_evaluator_cache p).
Proof.
  revert p. induction ids as [|id ids IH]; intros p Hp.
  - split; [done|]. simpl. by rewrite (left_id_L ∅ (∪)).
  - change (after_requests (id :: ids) p)
      with (after_requests ids (get_jit_evaluator_kernel id p).2).
    destruct (IH _ (numbered_get_jit_evaluator_kernel id p Hp)) as [Hn Hd].
    split; [done|]. rewrite Hd, dom_get_jit_evaluator_kernel. simpl.
    by rewrite (assoc_L (∪)), (comm_L (∪) (list_to_set ids)).
Qed.

(** X4. In a cache that was filled from empty by requests for kernels, the
    keys are the ids that were asked for; the kernel under an id is the
    evaluator of that id, named [jit_evaluator_n] for an [n] below the size
    of the cache; and no two entries have kernels of the same name. *)
Theorem jit_evaluator_names_distinct (ids : list JITEvaluatorId)
    (s : ProgramState) :
  dom (jit_evaluator_cache (after_requests ids (no_kernels s)))
    = list_to_set ids ∧
  (∀ id ker,
     jit_evaluator_cache (after_requests ids (no_kernels s)) !! id = Some ker →
     ∃ n : nat,
       (n < size (jit_evaluator_cache (after_requests ids (no_kernels s))))%nat ∧
       ker = evaluator_kernel ("jit_evaluator_" +:+ pretty n) id) ∧
  (∀ id1 id2 k1 k2,
     jit_evaluator_cache (after_requests ids (no_kernels s)) !! id1 = Some k1 →
     jit_evaluator_cache (after_requests ids (no_kernels s)) !! id2 = Some k2 →
     name k1 = name k2 → id1 = id2).
Proof.
  destruct (after_requests_numbered ids (no_kernels s) numbered_empty)
    as [[Hker Hinj] Hd].
  split; [|done]. rewrite Hd. simpl.
  by rewrite dom_empty_L, (right_id_L ∅ (∪)).
Qed.

(** *** The evaluator kernel of an id *)

(** X5. The kernel built for an id is marked as an evaluator and returns
    one value, of the type [ret] of the id. It declares one argument for a
    unary id and two for a binary one, and the argument loads of its body
    are those of its declared arguments, numbered from 0 in their order and
    with their types. Every statement of the body points to statements
    inserted before it, and the body ends with the return of the operation
    of the id, which is binary exactly for a binary id. *)
Theorem evaluator_kernel_well_formed (kernel_name : string)
    (id : JITEvaluatorId) :
  is_evaluator (evaluator_kernel kernel_name id) = true ∧
  rets (evaluator_kernel kernel_name id) = [ret id] ∧
  length (args (evaluator_kernel kernel_name id))
    = (if is_binary id then 2 else 1)%nat ∧
  filter (λ s, is_ArgLoadStmt s) (ir (evaluator_kernel kernel_name id))
    = imap (λ i a, make_ArgLoadStmt (Z.of_nat i) a.1 a.2)
        (args (evaluator_kernel kernel_name id)) ∧
  closed_body (ir (evaluator_kernel kernel_name id)) ∧
  ∃ oper,
    last (ir (evaluator_kernel kernel_name id)) = Some (make_ReturnStmt oper) ∧
    oper ∈ ir (evaluator_kernel kernel_name id) ∧
    if is_binary id
    then ∃ l r, oper = make_BinaryOpStmt (op id) l r
    else ∃ o t, oper = make_UnaryOpStmt (op id) o t.
Proof.
  unfold evaluator_kernel, func. simpl.
  destruct (is_binary id); simpl.
  - repeat split; [|eexists; split; [done|split; [|by eauto]]].
    + intros i s o Hi Ho.
      destruct i as [|[|[|[|i]]]]; simplify_eq/=.
      * by apply elem_of_nil in Ho.
      * by apply elem_of_nil in Ho.
      * apply elem_of_cons in Ho as [->|Ho]; [by exists 0%nat; split; [lia|]|].
        apply list_elem_of_singleton in Ho as ->.
        by exists 1%nat; split; [lia|].
      * apply list_elem_of_singleton in Ho as ->.
        by exists 2%nat; split; [lia|].
    + by repeat constructor.
  - repeat split; [|eexists; split; [done|split; [|by eauto]]].
    + intros i s o Hi Ho.
      destruct i as [|[|[|i]]]; simplify_eq/=.
      * by apply elem_of_nil in Ho.
      * apply list_elem_of_singleton in Ho as ->.
        by exists 0%nat; split; [lia|].
      * apply list_elem_of_singleton in Ho as ->.
        by exists 1%nat; split; [lia|].
    + by repeat constructor.
Qed.

(** *** The evaluation of an operation *)

Lemma is_good_type_true (t : DataType) :
  is_good_type t = true ↔
  t ∈ primitive <$> [i32; i64; u32; u64; f32; f64].
Proof.
  unfold is_good_type. rewrite !fmap_cons, !elem_of_cons, fmap_nil.
  destruct t as [[]|]; simpl; split; intros Ht; try done;
    try (repeat (destruct Ht as [Ht|Ht]; [done|]); by apply elem_of_nil in Ht);
    repeat first [by left | right].
Qed.

(** X6. [is_good_type] accepts the primitive types [i32], [i64], [u32],
    [u64], [f32] and [f64], and no other type. For a result of a type it
    accepts, both [jit_evaluate] functions return [true]; for any other
    type they return [false] at once: the result constant and the program
    are as they were, so that no kernel was built, cached or launched. *)
Theorem jit_evaluate_rejects_bad_types (ret : TypedConstant)
    (bstmt : BinaryOpStmt) (ustmt : UnaryOpStmt) (l r c : TypedConstant)
    (p : Program) :
  (is_good_type (dt ret) = true ↔
     dt ret ∈ primitive <$> [i32; i64; u32; u64; f32; f64]) ∧
  (is_good_type (dt ret) = true →
     (jit_evaluate_binary_op ret bstmt l r p).1.1 = true ∧
     (jit_evaluate_unary_op ret ustmt c p).1.1 = true) ∧
  (is_good_type (dt ret) = false →
     jit_evaluate_binary_op ret bstmt l r p = (false, ret, p) ∧
     jit_evaluate_unary_op ret ustmt c p = (false, ret, p)).
Proof.
  split; [apply is_good_type_true|].
  unfold jit_evaluate_binary_op, jit_evaluate_unary_op.
  split; intros ->; simpl; [|done].
  split.
  - by destruct (get_jit_evaluator_kernel _ p).
  - by destruct (get_jit_evaluator_kernel _ p).
Qed.

(** X7. The evaluation of an operation on constants launches the kernel of
    its own id: for a result of a good type and a cache that was filled by
    requests only, [jit_evaluate_binary_op] launches a kernel that declares
    two arguments, of the types of the two operands, on the raw bits of the
    two operands, and that returns a value of the type of the result; the
    result constant keeps its type and holds the fetched value in its 64
    bits. [jit_evaluate_unary_op] does the same with one argument. The
    cache is still one filled by requests only. *)
Theorem jit_evaluate_launches_matching_kernel (ret : TypedConstant)
    (bstmt : BinaryOpStmt) (ustmt : UnaryOpStmt) (l r c : TypedConstant)
    (p : Program) :
  numbered (jit_evaluator_cache p) →
  is_good_type (dt ret) = true →
  (∃ ker p1 s,
     get_jit_evaluator_kernel
       (mkJITEvaluatorId this_thread (binary_op_type bstmt) (dt ret)
          (dt l) (dt r) true) p = (ker, p1) ∧
     s = launch ker [val_u64 l; val_u64 r] (program_state p1) ∧
     jit_evaluate_binary_op ret bstmt l r p
       = (true,
          {| dt := dt ret; value_bits := fetch_result s `mod` 2 ^ 64 |},
          {| jit_evaluator_cache := jit_evaluator_cache p1;
             program_state := s |}) ∧
     args ker = [(dt l, false); (dt r, false)] ∧
     rets ker = [dt ret] ∧
     last (ir ker)
       = Some (make_ReturnStmt
                 (make_BinaryOpStmt (binary_op_type bstmt)
                    (make_ArgLoadStmt 0 (dt l) false)
                    (make_ArgLoadStmt 1 (dt r) false))) ∧
     numbered (jit_evaluator_cache p1)) ∧
  (∃ ker p1 s,
     get_jit_evaluator_kernel
       (mkJITEvaluatorId this_thread (unary_op_type ustmt) (dt ret)
          (dt c) (cast_type ustmt) false) p = (ker, p1) ∧
     s = launch ker [val_u64 c] (program_state p1) ∧
     jit_evaluate_unary_op ret ustmt c p
       = (true,
          {| dt := dt ret; value_bits := fetch_result s `mod` 2 ^ 64 |},
          {| jit_evaluator_cache := jit_evaluator_cache p1;
             program_state := s |}) ∧
     args ker = [(dt c, false)] ∧
     rets ker = [dt ret] ∧
     last (ir ker)
       = Some (make_ReturnStmt
                 (make_UnaryOpStmt (unary_op_type ustmt)
                    (make_ArgLoadStmt 0 (dt c) false)
                    (if unary_op_is_cast (unary_op_type ustmt)
                     then Some (cast_type ustmt) else None))) ∧
     numbered (jit_evaluator_cache p1)).
Proof.
  intros Hp Hgood.
  unfold jit_evaluate_binary_op, jit_evaluate_unary_op. rewrite Hgood. simpl.
  split.
  - pose proof (numbered_get_jit_evaluator_kernel
      (mkJITEvaluatorId this_thread (binary_op_type bstmt) (dt ret)
         (dt l) (dt r) true) p Hp) as Hn.
    pose proof (get_jit_evaluator_kernel_lookup
      (mkJITEvaluatorId this_thread (binary_op_type bstmt) (dt ret)
         (dt l) (dt r) true) p) as Hl.
    destruct (get_jit_evaluator_kernel _ p) as [ker p1]. simpl in *.
    destruct Hn as [Hker Hinj]. destruct (Hker _ _ Hl) as (n & _ & ->).
    eexists _, _, _. by repeat split.
  - pose proof (numbered_get_jit_evaluator_kernel
      (mkJITEvaluatorId this_thread (unary_op_type ustmt) (dt ret)
         (dt c) (cast_type ustmt) false) p Hp) as Hn.
    pose proof (get_jit_evaluator_kernel_lookup
      (mkJITEvaluatorId this_thread (unary_op_type ustmt) (dt ret)
         (dt c) (cast_type ustmt) false) p) as Hl.
    destruct (get_jit_evaluator_kernel _ p) as [ker p1]. simpl in *.
    destruct Hn as [Hker Hinj]. destruct (Hker _ _ Hl) as (n & _ & ->).
    eexists _, _, _. by repeat split.
Qed.

(** X8. Two evaluations of the same binary operation on operands of the
    same types share one kernel: after the first, the second finds the
    kernel in the cache and leaves the cache as it is, whatever the values
    of its operands. One evaluation adds at most one kernel. *)
Theorem jit_evaluate_binary_op_reuses_kernel (ret l r : TypedConstant)
    (stmt : BinaryOpStmt) (p : Program)
    (lhs' rhs' : Stmt) (width' bits bits_l bits_r : Z) :
  jit_evaluator_cache
    (jit_evaluate_binary_op (mkTypedConstant (dt ret) bits)
       (mkBinaryOpStmt (binary_op_type stmt) lhs' rhs' (dt ret) width')
       (mkTypedConstant (dt l) bits_l) (mkTypedConstant (dt r) bits_r)
       (jit_evaluate_binary_op ret stmt l r p).2).2
  = jit_evaluator_cache (jit_evaluate_binary_op ret stmt l r p).2 ∧
  (size (jit_evaluator_cache (jit_evaluate_binary_op ret stmt l r p).2)
   ≤ S (size (jit_evaluator_cache p)))%nat.
Proof.
  unfold jit_evaluate_binary_op. simpl.
  destruct (is_good_type (dt ret)); simpl; [|split; [done|lia]].
  pose proof (get_jit_evaluator_kernel_lookup
    (mkJITEvaluatorId this_thread (binary_op_type stmt) (dt ret)
       (dt l) (dt r) true) p) as Hl.
  assert (size (jit_evaluator_cache (get_jit_evaluator_kernel
    (mkJITEvaluatorId this_thread (binary_op_type stmt) (dt ret)
       (dt l) (dt r) true) p).2) ≤ S (size (jit_evaluator_cache p)))%nat
    as Hsize.
  { destruct (jit_evaluator_cache p !!
      mkJITEvaluatorId this_thread (binary_op_type stmt) (dt ret)
        (dt l) (dt r) true) as [ker|] eqn:Hid.
    - rewrite (get_jit_evaluator_kernel_hit _ _ _ Hid). simpl. lia.
    - destruct (get_jit_evaluator_kernel_miss _ _ Hid) as [-> _]. lia. }
  destruct (get_jit_evaluator_kernel _ p) as [ker p1]. simpl in *.
  split; [|done].
  unfold get_jit_evaluator_kernel at 1. simpl. by rewrite Hl.
Qed.

(** *** The visits *)

(** X9. [visit] replaces a binary operation exactly when both operands are
    constant statements, the statement has width 1 and its type is a good
    one. It never replaces it with an operand. A statement that it leaves
    alone leaves the program alone; a statement that it replaces is replaced
    with a constant of the type of the statement whose 64 bits are the
    result that was fetched from the program. *)
Theorem visit_BinaryOpStmt_folds_iff (stmt : BinaryOpStmt) (p : Program) :
  ((visit_BinaryOpStmt stmt p).1 ≠ unchanged ↔
     is_Some (as_ConstStmt (binary_lhs stmt)) ∧
     is_Some (as_ConstStmt (binary_rhs stmt)) ∧
     binary_width stmt = 1 ∧
     is_good_type (binary_ret_type stmt) = true) ∧
  ((visit_BinaryOpStmt stmt p).1 = unchanged →
     (visit_BinaryOpStmt stmt p).2 = p) ∧
  (visit_BinaryOpStmt stmt p).1 ≠ replaced_with_operand ∧
  (∀ evaluated,
     (visit_BinaryOpStmt stmt p).1 = replaced_with_constant evaluated →
     dt evaluated = binary_ret_type stmt ∧
     value_bits evaluated
       = fetch_result (program_state (visit_BinaryOpStmt stmt p).2)
           `mod` 2 ^ 64).
Proof.
  unfold visit_BinaryOpStmt.
  destruct (as_ConstStmt (binary_lhs stmt)) as [l|]; simpl.
  2: { split; [split; [done|by intros [[? [=]] _]]|by repeat split]. }
  destruct (as_ConstStmt (binary_rhs stmt)) as [r|]; simpl.
  2: { split; [split; [done|by intros (_ & [? [=]] & _)]|by repeat split]. }
  case_bool_decide as Hw; simpl.
  { split; [split; [done|by intros (_ & _ & ? & _)]|by repeat split]. }
  unfold jit_evaluate_binary_op. simpl.
  destruct (is_good_type (binary_ret_type stmt)); simpl.
  - destruct (get_jit_evaluator_kernel _ p) as [ker p1]. simpl.
    split; [split; [intros _; by eauto|done]|].
    split; [done|]. split; [done|]. by intros ? [= <-].
  - split; [split; [done|by intros (_ & _ & _ & ?)]|by repeat split].
Qed.

(** X10. [visit] replaces a unary operation with its operand exactly when
    the statement is a cast to the type that the operand already has,
    whether or not the operand is a constant and whatever the width, and
    leaves the program alone then. Any other cast of a constant, of width
    1, that is a cast of bits, or a cast to [f32] or to [f64], is folded
    without a kernel, whatever the type of the statement: the program is
    left alone and the new constant has the type of the statement. For a
    cast of bits it holds the bits of the operand unchanged; for a cast to
    [f32] or [f64] it holds the bits that the assignment of the converted
    value to [val_f32] or [val_f64] leaves in a constant constructed from
    the type alone. *)
Theorem visit_UnaryOpStmt_cast (stmt : UnaryOpStmt) (p : Program) :
  ((visit_UnaryOpStmt stmt p).1 = replaced_with_operand ↔
     is_cast stmt = true ∧ cast_type stmt = ret_type (operand stmt)) ∧
  ((visit_UnaryOpStmt stmt p).1 = replaced_with_operand →
     (visit_UnaryOpStmt stmt p).2 = p) ∧
  (∀ c,
     is_cast stmt = true →
     cast_type stmt ≠ ret_type (operand stmt) →
     as_ConstStmt (operand stmt) = Some c →
     unary_width stmt = 1 →
     (unary_op_type stmt = cast_bits →
      visit_UnaryOpStmt stmt p
        = (replaced_with_constant
             {| dt := unary_ret_type stmt; value_bits := value_bits c |},
           p)) ∧
     (unary_op_type stmt ≠ cast_bits → cast_type stmt = primitive f32 →
      visit_UnaryOpStmt stmt p
        = (replaced_with_constant
             {| dt := unary_ret_type stmt;
                value_bits := val_f32_assigned c fresh_bits |},
           p)) ∧
     (unary_op_type stmt ≠ cast_bits → cast_type stmt = primitive f64 →
      visit_UnaryOpStmt stmt p
        = (replaced_with_constant
             {| dt := unary_ret_type stmt;
                value_bits := val_f64_assigned c fresh_bits |},
           p)) ∧
     (∀ evaluated,
        (unary_op_type stmt = cast_bits ∨ cast_type stmt = primitive f32 ∨
         cast_type stmt = primitive f64) →
        (visit_UnaryOpStmt stmt p).1 = replaced_with_constant evaluated →
        dt evaluated = unary_ret_type stmt ∧
        (visit_UnaryOpStmt stmt p).2 = p)).
Proof.
  unfold visit_UnaryOpStmt. split; [|split].
  - destruct (is_cast stmt); simpl.
    + case_bool_decide as Hc; simpl; [done|].
      split; [|by intros [_ ?]].
      destruct (as_ConstStmt (operand stmt)) as [c|]; [|done].
      case_bool_decide; [done|].
      repeat case_bool_decide; try done.
      unfold jit_evaluate_unary_op.
      destruct (is_good_type _); simpl; [|done].
      by destruct (get_jit_evaluator_kernel _ p).
    + split; [|by intros [? _]].
      destruct (as_ConstStmt (operand stmt)) as [c|]; [|done].
      case_bool_decide; [done|].
      unfold jit_evaluate_unary_op.
      destruct (is_good_type _); simpl; [|done].
      by destruct (get_jit_evaluator_kernel _ p).
  - destruct (is_cast stmt); simpl.
    + case_bool_decide as Hc; simpl; [done|].
      destruct (as_ConstStmt (operand stmt)) as [c|]; [|done].
      case_bool_decide; [done|].
      repeat case_bool_decide; try done.
      unfold jit_evaluate_unary_op.
      destruct (is_good_type _); simpl; [|done].
      by destruct (get_jit_evaluator_kernel _ p).
    + destruct (as_ConstStmt (operand stmt)) as [c|]; [|done].
      case_bool_decide; [done|].
      unfold jit_evaluate_unary_op.
      destruct (is_good_type _); simpl; [|done].
      by destruct (get_jit_evaluator_kernel _ p).
  - intros c -> Hne -> Hw. simpl.
    rewrite bool_decide_eq_false_2 by done.
    rewrite (bool_decide_eq_false_2 (unary_width stmt ≠ 1)) by (by intros []).
    split; [|split; [|split]].
    + intros Hop. by rewrite bool_decide_eq_true_2.
    + intros Hop H32.
      rewrite (bool_decide_eq_false_2 (unary_op_type stmt = cast_bits)) by done.
      by rewrite bool_decide_eq_true_2.
    + intros Hop H64.
      rewrite (bool_decide_eq_false_2 (unary_op_type stmt = cast_bits)) by done.
      rewrite (bool_decide_eq_false_2 (cast_type stmt = primitive f32))
        by (by rewrite H64).
      by rewrite bool_decide_eq_true_2.
    + intros evaluated Hdirect.
      destruct (decide (unary_op_type stmt = cast_bits)) as [Hop|Hop].
      { rewrite bool_decide_eq_true_2 by done. simpl. by intros [= <-]. }
      rewrite (bool_decide_eq_false_2 (unary_op_type stmt = cast_bits)) by done.
      destruct (decide (cast_type stmt = primitive f32)) as [H32|H32].
      { rewrite bool_decide_eq_true_2 by done. simpl. by intros [= <-]. }
      rewrite (bool_decide_eq_false_2 (cast_type stmt = primitive f32)) by done.
      destruct Hdirect as [?|[?|H64]]; [done..|].
      rewrite bool_decide_eq_true_2 by done. simpl. by intros [= <-].
Qed.

(** X11. [visit] leaves a unary operation alone exactly when it is not a
    cast to the type of its operand and either the operand is not a
    constant, or the width is not 1, or the operation must go through a
    kernel (it is not a cast, or a cast that is neither of bits nor to
    [f32] or [f64]) and the type of the statement is not a good one. In
    all these cases the program is left alone. An operation on a constant
    of width 1 that goes through a kernel with a good type is replaced with
    a constant of the type of the statement whose 64 bits are the result
    that was fetched. *)
Theorem visit_UnaryOpStmt_unchanged_iff (stmt : UnaryOpStmt) (p : Program) :
  ((visit_UnaryOpStmt stmt p).1 = unchanged ↔
     ¬ (is_cast stmt = true ∧ cast_type stmt = ret_type (operand stmt)) ∧
     (as_ConstStmt (operand stmt) = None ∨
      unary_width stmt ≠ 1 ∨
      (is_good_type (unary_ret_type stmt) = false ∧
       (is_cast stmt = true →
          unary_op_type stmt ≠ cast_bits ∧
          cast_type stmt ≠ primitive f32 ∧
          cast_type stmt ≠ primitive f64)))) ∧
  ((visit_UnaryOpStmt stmt p).1 = unchanged →
     (visit_UnaryOpStmt stmt p).2 = p) ∧
  (∀ c,
     as_ConstStmt (operand stmt) = Some c →
     unary_width stmt = 1 →
     is_cast stmt = false →
     is_good_type (unary_ret_type stmt) = true →
     ∃ evaluated,
       (visit_UnaryOpStmt stmt p).1 = replaced_with_constant evaluated ∧
       dt evaluated = unary_ret_type stmt ∧
       value_bits evaluated
         = fetch_result (program_state (visit_UnaryOpStmt stmt p).2)
             `mod` 2 ^ 64).
Proof.
  unfold visit_UnaryOpStmt, jit_evaluate_unary_op. split; [|split].
  - destruct (is_cast stmt); simpl.
    + case_bool_decide as Hc; simpl.
      { split; [done|]. by intros [[] _]. }
      destruct (as_ConstStmt (operand stmt)) as [c|];
        [|split; [intros _; split; [by intros [_ ?]|by left]|done]].
      case_bool_decide as Hw;
        [split; [intros _; split; [by intros [_ ?]|by right; left]|done]|].
          case_bool_decide as Hb; simpl.
      { split; [done|]. intros [_ [?|[?|[_ Hk]]]]; try done.
        by destruct (Hk eq_refl) as [? _]. }
      case_bool_decide as H32; simpl.
      { split; [done|]. intros [_ [?|[?|[_ Hk]]]]; try done.
        by destruct (Hk eq_refl) as (_ & ? & _). }
      case_bool_decide as H64; simpl.
      { split; [done|]. intros [_ [?|[?|[_ Hk]]]]; try done.
        by destruct (Hk eq_refl) as (_ & _ & ?). }
      destruct (is_good_type (unary_ret_type stmt)); simpl.
      * destruct (get_jit_evaluator_kernel _ p). simpl.
        split; [done|]. by intros [_ [?|[?|[? _]]]].
      * split; [|done]. intros _. split; [by intros [_ ?]|].
        right; right. by split.
    + destruct (as_ConstStmt (operand stmt)) as [c|];
        [|split; [intros _; split; [by intros [? _]|by left]|done]].
      case_bool_decide as Hw;
        [split; [intros _; split; [by intros [? _]|by right; left]|done]|].
          destruct (is_good_type (unary_ret_type stmt)); simpl.
      * destruct (get_jit_evaluator_kernel _ p). simpl.
        split; [done|]. by intros [_ [?|[?|[? _]]]].
      * split; [|done]. intros _. split; [by intros [? _]|].
        right; right. by split.
  - destruct (is_cast stmt); simpl.
    + case_bool_decide as Hc; simpl; [done|].
      destruct (as_ConstStmt (operand stmt)) as [c|]; [|done].
      case_bool_decide; [done|].
      repeat case_bool_decide; try done.
      destruct (is_good_type _); simpl; [|done].
      by destruct (get_jit_evaluator_kernel _ p).
    + destruct (as_ConstStmt (operand stmt)) as [c|]; [|done].
      case_bool_decide; [done|].
      destruct (is_good_type _); simpl; [|done].
      by destruct (get_jit_evaluator_kernel _ p).
  - intros c -> Hw -> Hgood. simpl. rewrite Hgood.
    rewrite (bool_decide_eq_false_2 (unary_width stmt ≠ 1)) by (by intros []).
    simpl. destruct (get_jit_evaluator_kernel _ p). simpl. by eexists.
Qed.

Lemma get_jit_evaluator_kernel_keeps id p id' ker :
  jit_evaluator_cache p !! id' = Some ker →
  jit_evaluator_cache (get_jit_evaluator_kernel id p).2 !! id' = Some ker.
Proof.
  intros Hl. destruct (decide (id' = id)) as [->|Hne].
  - by rewrite (get_jit_evaluator_kernel_hit _ _ _ Hl).
  - by rewrite get_jit_evaluator_kernel_other.
Qed.

Lemma get_jit_evaluator_kernel_size id p :
  (size (jit_evaluator_cache (get_jit_evaluator_kernel id p).2)
   ≤ S (size (jit_evaluator_cache p)))%nat.
Proof.
  destruct (jit_evaluator_cache p !! id) as [ker|] eqn:Hid.
  - rewrite (get_jit_evaluator_kernel_hit _ _ _ Hid). simpl. lia.
  - destruct (get_jit_evaluator_kernel_miss _ _ Hid) as [-> _]. lia.
Qed.

(** The cache after a visit is the cache before it, or the cache after one
    request. *)
Lemma visit_BinaryOpStmt_cache stmt p :
  ∃ id,
    jit_evaluator_cache (visit_BinaryOpStmt stmt p).2 = jit_evaluator_cache p ∨
    jit_evaluator_cache (visit_BinaryOpStmt stmt p).2
    = jit_evaluator_cache (get_jit_evaluator_kernel id p).2.
Proof.
  unfold visit_BinaryOpStmt, jit_evaluate_binary_op.
  destruct (as_ConstStmt (binary_lhs stmt)) as [l|],
           (as_ConstStmt (binary_rhs stmt)) as [r|]; simpl;
    try (exists (mkJITEvaluatorId this_thread 0 (primitive i32)
                   (primitive i32) (primitive i32) true); by left).
  exists (mkJITEvaluatorId this_thread (binary_op_type stmt)
            (binary_ret_type stmt) (dt l) (dt r) true).
  case_bool_decide; [by left|].
  destruct (is_good_type (binary_ret_type stmt)); simpl; [|by left].
  destruct (get_jit_evaluator_kernel _ p). by right.
Qed.

Lemma visit_UnaryOpStmt_cache stmt p :
  ∃ id,
    jit_evaluator_cache (visit_UnaryOpStmt stmt p).2 = jit_evaluator_cache p ∨
    jit_evaluator_cache (visit_UnaryOpStmt stmt p).2
    = jit_evaluator_cache (get_jit_evaluator_kernel id p).2.
Proof.
  unfold visit_UnaryOpStmt, jit_evaluate_unary_op.
  destruct (as_ConstStmt (operand stmt)) as [c|].
  2: { exists (mkJITEvaluatorId this_thread 0 (primitive i32)
                 (primitive i32) (primitive i32) true).
       left. by destruct (_ && _). }
  exists (mkJITEvaluatorId this_thread (unary_op_type stmt)
            (unary_ret_type stmt) (dt c) (cast_type stmt) false).
  destruct (_ && _); [by left|].
  case_bool_decide; [by left|].
  destruct (is_cast stmt); repeat case_bool_decide; try (by left); simpl;
    (destruct (is_good_type (unary_ret_type stmt)); simpl; [|by left];
     destruct (get_jit_evaluator_kernel _ p); by right).
Qed.

(** X12. The visits never remove or replace a kernel of the cache: every
    entry that was there before the visit of a binary or unary operation is
    there after it, with the same kernel. One visit adds at most one
    kernel, and a cache that was filled by requests only is still one. *)
Theorem visits_keep_cached_kernels (bstmt : BinaryOpStmt)
    (ustmt : UnaryOpStmt) (p : Program) :
  (∀ id ker, jit_evaluator_cache p !! id = Some ker →
     jit_evaluator_cache (visit_BinaryOpStmt bstmt p).2 !! id = Some ker ∧
     jit_evaluator_cache (visit_UnaryOpStmt ustmt p).2 !! id = Some ker) ∧
  (size (jit_evaluator_cache (visit_BinaryOpStmt bstmt p).2)
   ≤ S (size (jit_evaluator_cache p)))%nat ∧
  (size (jit_evaluator_cache (visit_UnaryOpStmt ustmt p).2)
   ≤ S (size (jit_evaluator_cache p)))%nat ∧
  (numbered (jit_evaluator_cache p) →
     numbered (jit_evaluator_cache (visit_BinaryOpStmt bstmt p).2) ∧
     numbered (jit_evaluator_cache (visit_UnaryOpStmt ustmt p).2)).
Proof.
  destruct (visit_BinaryOpStmt_cache bstmt p) as [idb [-> | ->]],
           (visit_UnaryOpStmt_cache ustmt p) as [idu [-> | ->]];
    (split; [intros id ker Hl; split;
               first [done | by apply get_jit_evaluator_kernel_keeps]|]);
    (split; [first [lia | apply get_jit_evaluator_kernel_size]|]);
    (split; [first [lia | apply get_jit_evaluator_kernel_size]|]);
    intros Hn; split;
      first [done | by apply numbered_get_jit_evaluator_kernel].
Qed.

(** *** The extraction of bits *)

Lemma extract_bits_spec (v b e : Z) :
  0 ≤ b < 64 → 0 ≤ e - b < 63 →
  extract_bits v b e = Some ((v `div` 2 ^ b) `mod` 2 ^ (e - b)).
Proof.
  intros Hb He. unfold extract_bits, shift_right, int_sub, one_shift_left.
  rewrite (bool_decide_eq_true_2 (0 ≤ b < 64)) by done. simpl.
  rewrite (bool_decide_eq_true_2 (- 2 ^ 31 ≤ e - b < 2 ^ 31)) by lia. simpl.
  rewrite (bool_decide_eq_true_2 (0 ≤ e - b < 63)) by done. simpl.
  rewrite Z.shiftl_1_l, Z.sub_1_r, <-Z.ones_equiv.
  rewrite Z.land_ones by lia. by rewrite Z.shiftr_div_pow2 by lia.
Qed.

(** X13. [visit] leaves a bit extraction alone exactly when its input is
    not a constant statement or its width is not 1. With a constant input
    [c], width 1, [0 ≤ bit_begin < 64] and [0 ≤ bit_end - bit_begin < 63] it
    replaces the statement with a constant of the type of [c] whose value is
    the bits [bit_begin] up to [bit_end] (excluded) of the value [v] of [c],
    which is [val_int] for a signed type and [val_uint] otherwise: bit [i]
    of the result is bit [bit_begin + i] of [v] for [i] below
    [bit_end - bit_begin] and 0 above, the result is
    [(v / 2 ^ bit_begin) mod 2 ^ (bit_end - bit_begin)], and it lies between
    0 and [2 ^ (bit_end - bit_begin)]. *)
Theorem visit_BitExtractStmt_bits (stmt : BitExtractStmt) :
  (visit_BitExtractStmt stmt = Some unchanged ↔
     as_ConstStmt (input stmt) = None ∨ bit_extract_width stmt ≠ 1) ∧
  (∀ c,
     as_ConstStmt (input stmt) = Some c →
     bit_extract_width stmt = 1 →
     0 ≤ bit_begin stmt < 64 →
     0 ≤ bit_end stmt - bit_begin stmt < 63 →
     ∃ result,
       visit_BitExtractStmt stmt
         = Some (replaced_with_constant (TypedConstant_of (dt c) result)) ∧
       0 ≤ result < 2 ^ (bit_end stmt - bit_begin stmt) ∧
       result
         = ((if is_signed (dt c) then val_int c else val_uint c)
              `div` 2 ^ bit_begin stmt)
           `mod` 2 ^ (bit_end stmt - bit_begin stmt) ∧
       ∀ i, 0 ≤ i →
         Z.testbit result i
         = bool_decide (i < bit_end stmt - bit_begin stmt)
           && Z.testbit (if is_signed (dt c) then val_int c else val_uint c)
                (bit_begin stmt + i)).
Proof.
  unfold visit_BitExtractStmt. split.
  - destruct (as_ConstStmt (input stmt)) as [c|]; [|by split; [left|]].
    case_bool_decide as Hw; [by split; [right|]|].
    split; [|by intros [|]].
    by destruct (extract_bits _ _ _).
  - intros c -> Hw Hb He.
    rewrite bool_decide_eq_false_2 by (by intros []).
    rewrite extract_bits_spec by done. simpl.
    eexists. split; [done|]. split; [|split; [done|]].
    + apply Z.mod_pos_bound, Z.pow_pos_nonneg; lia.
    + intros i Hi. case_bool_decide as Hlt; simpl.
      * rewrite Z.mod_pow2_bits_low by lia.
        rewrite <-Z.shiftr_div_pow2, Z.shiftr_spec by lia.
        f_equal. lia.
      * apply Z.mod_pow2_bits_high. lia.
Qed.

End folder.

(** *** An instance

    Threads are numbers, and the state of the program is the value that the
    last launch left to fetch: a launch leaves the sum of its raw
    arguments. Signed types are [i32] and [i64]; the constants are not
    negative, and their value is read from their 64 bits. *)

Definition adding_launch (ker : Kernel) (raw_args : list Z) (s : Z) : Z :=
  foldr Z.add 0 raw_args.

Definition signed_types (t : DataType) : bool :=
  is_primitive t i32 || is_primitive t i64.

Definition constant_of_value (t : DataType) (x : Z) : TypedConstant :=
  {| dt := t; value_bits := x `mod` 2 ^ 64 |}.

Definition three : TypedConstant := {| dt := primitive i32; value_bits := 3 |}.

Definition four : TypedConstant := {| dt := primitive i32; value_bits := 4 |}.

Definition three_plus_four : BinaryOpStmt :=
  {| binary_op_type := 0;
     binary_lhs := {| as_ConstStmt := Some three; ret_type := primitive i32 |};
     binary_rhs := {| as_ConstStmt := Some four; ret_type := primitive i32 |};
     binary_ret_type := primitive i32;
     binary_width := 1 |}.

Definition bits_1_to_4_of_54 : BitExtractStmt :=
  {| input :=
       {| as_ConstStmt := Some {| dt := primitive u32; value_bits := 54 |};
          ret_type := primitive u32 |};
     bit_begin := 1;
     bit_end := 4;
     bit_extract_width := 1 |}.

Lemma jit_evaluate_launches_matching_kernel_witness :
  ∃ ker p1 s,
    get_jit_evaluator_kernel (λ _, false) (λ _ _ s, s)
      (mkJITEvaluatorId 0%nat 0 (primitive i32) (primitive i32)
         (primitive i32) true) (no_kernels 0) = (ker, p1) ∧
    s = adding_launch ker [3; 4] (program_state p1) ∧
    jit_evaluate_binary_op 0%nat (λ _, false) (λ _ _ s, s) adding_launch
      (λ s, s) three three_plus_four three four (no_kernels 0)
      = (true, {| dt := primitive i32; value_bits := s `mod` 2 ^ 64 |},
         {| jit_evaluator_cache := jit_evaluator_cache p1;
            program_state := s |}) ∧
    args ker = [(primitive i32, false); (primitive i32, false)] ∧
    rets ker = [primitive i32] ∧
    last (ir ker)
      = Some (make_ReturnStmt
                (make_BinaryOpStmt 0
                   (make_ArgLoadStmt 0 (primitive i32) false)
                   (make_ArgLoadStmt 1 (primitive i32) false))) ∧
    numbered (λ _, false) (jit_evaluator_cache p1).
Proof.
  exact (proj1 (jit_evaluate_launches_matching_kernel 0%nat (λ _, false)
                  (λ _ _ s, s) adding_launch (λ s, s) three three_plus_four
                  (mkUnaryOpStmt 0 (mkStmt (Some three) (primitive i32))
                     (primitive i32) (primitive i32) 1)
                  three four three (no_kernels 0)
                  (numbered_empty (λ _, false)) eq_refl)).
Defined.

Lemma visit_BitExtractStmt_bits_witness :
  ∃ result,
    visit_BitExtractStmt signed_types val_u64 val_u64 constant_of_value
      bits_1_to_4_of_54
      = Some (replaced_with_constant
                (constant_of_value (primitive u32) result)) ∧
    0 ≤ result < 2 ^ (4 - 1) ∧
    result = (54 `div` 2 ^ 1) `mod` 2 ^ (4 - 1) ∧
    ∀ i, 0 ≤ i →
      Z.testbit result i = bool_decide (i < 4 - 1) && Z.testbit 54 (1 + i).
Proof.
  apply (proj2 (visit_BitExtractStmt_bits signed_types val_u64 val_u64
                  constant_of_value bits_1_to_4_of_54)
           {| dt := primitive u32; value_bits := 54 |});
    [reflexivity|reflexivity|simpl; lia|simpl; lia].
Defined.

End Folder.

(** ** [taichi/program/state_flow_graph.h] *)

Module SFG.

Section state_flow_graph.

(** [AsyncState], [SNode] and [TaskLaunchRecord] come from other headers:
    identifiers that can be compared and hashed, and an opaque payload. *)
Context `{Countable AsyncState} `{Countable SNode} {TaskLaunchRecord : Type}.

(** Modelled from the spec: [TaskMeta] ([async_utils.h] is not among the
    sources): the set of states a task reads, the set it writes, and the
    scheduling hint that it generates the list of a structure. *)
Record TaskMeta : Type := mkTaskMeta {
  input_states : gset AsyncState;
  output_states : gset AsyncState;
  listgen_snode : option SNode;
}.

(** [StateToNodesMap]: a vector of pairs of a state and a set of [Node *];
    a [Node *] is the address of a node. *)
Abbreviation StateToNodesMap := (list (AsyncState * gset nat)).

(** [struct Node]; [meta] is a pointer, [None] when null. *)
Record Node : Type := mkNode {
  rec : TaskLaunchRecord;
  meta : option TaskMeta;
  is_initial_node : bool;
  node_id : Z;
  pending_node_id : Z;
  input_edges : StateToNodesMap;
  output_edges : StateToNodesMap;
}.

(** [Node::pending] *)
Definition pending (n : Node) : bool := bool_decide (0 ≤ pending_node_id n).

(** [Node::executed] *)
Definition executed (n : Node) : bool := bool_decide (pending_node_id n = -1).

(** [Node::mark_executed] *)
Definition mark_executed (n : Node) : Node :=
  {| rec := rec n; meta := meta n; is_initial_node := is_initial_node n;
     node_id := node_id n; pending_node_id := -1;
     input_edges := input_edges n; output_edges := output_edges n |}.

(** [Node::has_state_flow]: [None] is the dereference of a null [meta]. *)
Definition has_state_flow (self : Node) (state : AsyncState)
    (destination : Node) : option bool :=
  m ← meta destination;
  Some (bool_decide (state ∈ input_states m)).

(** *** The per-state adjacency vectors *)

(** Modelled from the spec: the helpers of [StateToNodesMap] (their code is
    in [state_flow_graph.cpp], not among the sources): a linear scan for the
    state's pair. [edges_at m s] is the set stored under [s]. *)
Fixpoint edges_at (m : StateToNodesMap) (s : AsyncState) : gset nat :=
  match m with
  | [] => ∅
  | (k, ns) :: m' => if decide (k = s) then ns else edges_at m' s
  end.

(** Modelled from the spec: insertion of a node under a state: into the
    state's set when the vector has one, else as a new pair at the end. *)
Fixpoint map_insert (m : StateToNodesMap) (s : AsyncState) (x : nat)
  : StateToNodesMap :=
  match m with
  | [] => [(s, {[x]})]
  | (k, ns) :: m' =>
      if decide (k = s) then (k, {[x]} ∪ ns) :: m'
      else (k, ns) :: map_insert m' s x
  end.


(** The set under [s] emptied. *)
Definition map_clear (m : StateToNodesMap) (s : AsyncState) : StateToNodesMap :=
  (λ e, (e.1, if decide (e.1 = s) then ∅ else e.2)) <$> m.

(** The pairs (state, node) a traversal of the vector meets. *)
Definition edge_list (m : StateToNodesMap) : list (AsyncState * nat) :=
  e ← m; (λ x, (e.1, x)) <$> elements (edges_at m e.1).

Definition neighbours (m : StateToNodesMap) : gset nat :=
  list_to_set (edge_list m).*2.

(** *** The graph *)

(** [class StateFlowGraph]. [nodes_] is a vector of owning pointers: each
    entry is the address of a node with the node stored there. The members
    that no operation below reads ([task_name_to_launch_ids_], [ir_bank_],
    [engine_], [program_]) are left out; [initial_meta_] is the [meta] of
    the initial node. Node counts are far below [2^31]: the [int] members
    are integers. *)
Record StateFlowGraph : Type := mkGraph {
  nodes_ : list (nat * Node);
  initial_node_ : nat;
  first_pending_task_index_ : Z;
  latest_state_owner_ : gmap AsyncState nat;
  latest_state_readers_ : StateToNodesMap;
  list_up_to_date_ : gmap SNode bool;
}.

Definition with_nodes (N : list (nat * Node)) (g : StateFlowGraph)
  : StateFlowGraph :=
  {| nodes_ := N; initial_node_ := initial_node_ g;
     first_pending_task_index_ := first_pending_task_index_ g;
     latest_state_owner_ := latest_state_owner_ g;
     latest_state_readers_ := latest_state_readers_ g;
     list_up_to_date_ := list_up_to_date_ g |}.




Definition with_edges (ins outs : StateToNodesMap) (n : Node) : Node :=
  {| rec := rec n; meta := meta n; is_initial_node := is_initial_node n;
     node_id := node_id n; pending_node_id := pending_node_id n;
     input_edges := ins; output_edges := outs |}.

Definition with_ids (nid pid : Z) (n : Node) : Node :=
  {| rec := rec n; meta := meta n; is_initial_node := is_initial_node n;
     node_id := nid; pending_node_id := pid;
     input_edges := input_edges n; output_edges := output_edges n |}.

(** The same edit of every node, by its address. *)
Definition map_nodes (F : nat → Node → Node) (N : list (nat * Node))
  : list (nat * Node) :=
  (λ x, (x.1, F x.1 x.2)) <$> N.

(** A write through a [Node *]. *)
Definition update_node (p : nat) (f : Node → Node) (N : list (nat * Node))
  : list (nat * Node) :=
  map_nodes (λ q n, if decide (q = p) then f n else n) N.

Definition add_out (s : AsyncState) (b : nat) (n : Node) : Node :=
  with_edges (input_edges n) (map_insert (output_edges n) s b) n.

Definition add_in (s : AsyncState) (a : nat) (n : Node) : Node :=
  with_edges (map_insert (input_edges n) s a) (output_edges n) n.

Definition add_edge (from to : nat) (s : AsyncState) (N : list (nat * Node))
  : list (nat * Node) :=
  update_node to (add_in s from) (update_node from (add_out s to) N).

(** Modelled from the spec: [StateFlowGraph::insert_edge] (declared here,
    defined in [state_flow_graph.cpp]): [to] joins [from]'s output edges
    under [state], [from] joins [to]'s input edges under [state]. *)
Definition insert_edge (g : StateFlowGraph) (from to : nat) (state : AsyncState)
  : StateFlowGraph :=
  with_nodes (add_edge from to state (nodes_ g)) g.

(** The address of a new node: one that no node of the graph has. *)
Definition alloc (N : list (nat * Node)) : nat := S (max_list N.*1).

(** Modelled from the spec: the constructor: the graph of the initial node
    alone, which is executed and holds all the initial states.
    [default_rec] is a default-constructed [TaskLaunchRecord]. *)
Definition new_graph (default_rec : TaskLaunchRecord) : StateFlowGraph :=
  {| nodes_ :=
       [(alloc [],
         {| rec := default_rec;
            meta := Some {| input_states := ∅; output_states := ∅;
                            listgen_snode := None |};
            is_initial_node := true; node_id := 0; pending_node_id := -1;
            input_edges := []; output_edges := [] |})];
     initial_node_ := alloc [];
     first_pending_task_index_ := 1;
     latest_state_owner_ := ∅;
     latest_state_readers_ := [];
     list_up_to_date_ := ∅ |}.

(** [latest_state_owner_[s]], or the initial node. *)
Definition owner_of (g : StateFlowGraph) (s : AsyncState) : nat :=
  default (initial_node_ g) (latest_state_owner_ g !! s).

(** The sources of the flow edges of a new node: the owner of each state
    it reads. *)
Definition flow_sources (g : StateFlowGraph) (m : TaskMeta)
  : list (nat * AsyncState) :=
  (λ s, (owner_of g s, s)) <$> elements (input_states m).

(** The sources of its dependency edges: for each state it writes, the
    readers recorded so far and the owner. *)
Definition dependency_sources (g : StateFlowGraph) (m : TaskMeta)
  : list (nat * AsyncState) :=
  s ← elements (output_states m);
  (λ d, (d, s)) <$>
    (elements (edges_at (latest_state_readers_ g) s) ++ [owner_of g s]).

(** A list of edges (source, state, destination) inserted one by one. *)
Definition add_edge_list (edges : list (nat * AsyncState * nat))
    (N : list (nat * Node)) : list (nat * Node) :=
  foldl (λ N' e, add_edge e.1.1 e.2 e.1.2 N') N edges.

Definition add_edges_to (x : nat) (sources : list (nat * AsyncState))
    (N : list (nat * Node)) : list (nat * Node) :=
  add_edge_list ((λ e, (e.1, e.2, x)) <$> sources) N.

(** Modelled from the spec: [StateFlowGraph::insert_node] (4.2): the node
    goes to the end of [nodes_] with its position as [node_id]; it gets a
    flow edge from the owner of every state it reads and is recorded as a
    reader of it; it gets a dependency edge from every reader recorded
    before it and from the owner of every state it writes, becomes the
    owner of that state, and the state's reader set is cleared. *)
Definition insert_node (g : StateFlowGraph) (r : TaskLaunchRecord)
    (m : TaskMeta) : StateFlowGraph :=
  let x := alloc (nodes_ g) in
  let n :=
    {| rec := r; meta := Some m; is_initial_node := false;
       node_id := Z.of_nat (length (nodes_ g));
       pending_node_id :=
         Z.of_nat (length (nodes_ g)) - first_pending_task_index_ g;
       input_edges := []; output_edges := [] |} in
  {| nodes_ :=
       add_edges_to x (flow_sources g m ++ dependency_sources g m)
         (nodes_ g ++ [(x, n)]);
     initial_node_ := initial_node_ g;
     first_pending_task_index_ := first_pending_task_index_ g;
     latest_state_owner_ :=
       foldr (λ s o, <[s := x]> o) (latest_state_owner_ g)
         (elements (output_states m));
     latest_state_readers_ :=
       foldr (λ s R, map_clear R s)
         (foldr (λ s R, map_insert R s x) (latest_state_readers_ g)
            (elements (input_states m)))
         (elements (output_states m));
     list_up_to_date_ := list_up_to_date_ g |}.

Definition with_list_up_to_date (f : gmap SNode bool) (g : StateFlowGraph)
  : StateFlowGraph :=
  {| nodes_ := nodes_ g; initial_node_ := initial_node_ g;
     first_pending_task_index_ := first_pending_task_index_ g;
     latest_state_owner_ := latest_state_owner_ g;
     latest_state_readers_ := latest_state_readers_ g;
     list_up_to_date_ := f |}.

(** One record of [insert_tasks]: under the filter, the task that would
    generate a list known to be up to date is skipped, and the one that is
    inserted leaves its list up to date. [get_task_meta] is the function of
    that name of [async_utils.h], with [ir_bank_] applied. *)
Definition insert_task (get_task_meta : TaskLaunchRecord → TaskMeta)
    (filter_listgen : bool) (g : StateFlowGraph) (r : TaskLaunchRecord)
  : StateFlowGraph :=
  let m := get_task_meta r in
  match listgen_snode m with
  | Some sn =>
      if filter_listgen then
        if default false (list_up_to_date_ g !! sn) then g
        else insert_node
               (with_list_up_to_date (<[sn := true]> (list_up_to_date_ g)) g)
               r m
      else insert_node g r m
  | None => insert_node g r m
  end.

(** Modelled from the spec: [StateFlowGraph::insert_tasks] (4.2). *)
Definition insert_tasks (get_task_meta : TaskLaunchRecord → TaskMeta)
    (g : StateFlowGraph) (records : list TaskLaunchRecord)
    (filter_listgen : bool) : StateFlowGraph :=
  foldl (insert_task get_task_meta filter_listgen) g records.

















(** [StateFlowGraph::size] and [StateFlowGraph::num_pending_tasks] *)
Definition size (g : StateFlowGraph) : nat := length (nodes_ g).

Definition num_pending_tasks (g : StateFlowGraph) : Z :=
  Z.of_nat (length (nodes_ g)) - first_pending_task_index_ g.



(** A node that none of the nodes still to be placed must precede. *)
Definition ready (remaining : list (nat * Node)) (x : nat * Node) : Prop :=
  neighbours (input_edges x.2) ## list_to_set remaining.*1.

Local Instance ready_dec (remaining : list (nat * Node)) (x : nat * Node)
  : Decision (ready remaining x).
Proof. unfold ready. apply _. Defined.




(** *** Reachable graphs *)


(** [p] is the address of a node of the graph. *)
Definition live (g : StateFlowGraph) (p : nat) : Prop := p ∈ (nodes_ g).*1.









(** *** The integer conversions of [num_pending_tasks]

    [nodes_.size()] is a [size_t], of 64 bits; [first_pending_task_index_]
    is converted to it for the subtraction, and the difference is converted
    to the [int], of 32 bits, that is returned. A conversion keeps the value
    modulo the width of its target. *)
Definition to_size_t (x : Z) : Z := x `mod` 2 ^ 64.

Definition to_int (x : Z) : Z := (x + 2 ^ 31) `mod` 2 ^ 32 - 2 ^ 31.

(** [StateFlowGraph::num_pending_tasks], with its conversions. *)
Definition num_pending_tasks_int (g : StateFlowGraph) : Z :=
  to_int (to_size_t (Z.of_nat (length (nodes_ g))
                     - to_size_t (first_pending_task_index_ g))).
(** *** The adjacency vectors *)

Lemma edges_at_map_insert m s x t :
  edges_at (map_insert m s x) t =
  if decide (s = t) then {[x]} ∪ edges_at m t else edges_at m t.
Proof.
  induction m as [|[k ns] m IH]; simpl.
  - destruct (decide (s = t)); set_solver.
  - destruct (decide (k = s)) as [->|Hks]; simpl.
    + destruct (decide (s = t)); done.
    + destruct (decide (k = t)) as [->|]; [|done].
      by destruct (decide (s = t)) as [->|].
Qed.

Lemma elem_of_edges_at_map_insert m s x t y :
  y ∈ edges_at (map_insert m s x) t ↔ y ∈ edges_at m t ∨ (s = t ∧ y = x).
Proof. rewrite edges_at_map_insert. destruct (decide (s = t)); set_solver. Qed.



(** Inserting what is there changes nothing, and inserting twice is
    inserting once. *)
Lemma map_insert_id m s x : x ∈ edges_at m s → map_insert m s x = m.
Proof.
  induction m as [|[k ns] m IH]; simpl; [set_solver|].
  destruct (decide (k = s)) as [->|]; intros Hx.
  - f_equal. f_equal. set_solver.
  - f_equal. by apply IH.
Qed.

Lemma map_insert_idemp m s x :
  map_insert (map_insert m s x) s x = map_insert m s x.
Proof.
  apply map_insert_id. rewrite elem_of_edges_at_map_insert. by right.
Qed.

Lemma length_map_insert_id m s x :
  x ∈ edges_at m s → length (map_insert m s x) = length m.
Proof. intros Hx. by rewrite map_insert_id. Qed.




(** *** Nodes by address *)





















(** *** Edges under the edits of the graph *)


















(** *** I5 under the edits *)










(** *** Reachable graphs are consistent *)











































(** *** With I3, every edge leads to a later node *)
























(** *** The order that [topo_sort_nodes] produces *)









(** *** C4 *)

(** C4. With a destination whose [meta] is set, [has_state_flow] returns,
    and returns [true] exactly when the destination's [input_states]
    contains the state. The result depends on the state and on the
    destination's meta only: not on the node asked, not on which node
    carries the meta, and not on the order in which the states entered
    [input_states]. *)
Theorem has_state_flow_iff (self : Node) (state : AsyncState)
    (destination : Node) (m : TaskMeta) :
  meta destination = Some m →
  has_state_flow self state destination
    = Some (bool_decide (state ∈ input_states m)) ∧
  (has_state_flow self state destination = Some true
     ↔ state ∈ input_states m) ∧
  (∀ self' destination',
     meta destination' = Some m →
     has_state_flow self' state destination'
       = has_state_flow self state destination) ∧
  (∀ (order order' : list AsyncState) m' destination',
     order ≡ₚ order' →
     input_states m = list_to_set order →
     input_states m' = list_to_set order' →
     meta destination' = Some m' →
     has_state_flow self state destination'
       = has_state_flow self state destination).
Proof.
  intros Hm. unfold has_state_flow. rewrite Hm. simpl.
  split; [done|]. split; [|split].
  - split; [intros [= Hb]; by apply bool_decide_eq_true in Hb|].
    intros Hs. by rewrite bool_decide_eq_true_2.
  - intros self' destination' ->. done.
  - intros order order' m' destination' Hp Ho Ho' ->. simpl.
    by rewrite Ho, Ho', (list_to_set_perm_L order order').
Qed.

(** *** C6 *)

Lemma with_edges_id n : with_edges (input_edges n) (output_edges n) n = n.
Proof. by destruct n. Qed.

Lemma with_nodes_id g : with_nodes (nodes_ g) g = g.
Proof. by destruct g. Qed.

Lemma elem_of_map_nodes F N p n' :
  (p, n') ∈ map_nodes F N ↔ ∃ n, n' = F p n ∧ (p, n) ∈ N.
Proof.
  unfold map_nodes. rewrite list_elem_of_fmap. split.
  - intros ([q n] & [= -> ->] & Hin). eauto.
  - intros (n & -> & Hin). by exists (p, n).
Qed.

Lemma map_nodes_id F N :
  (∀ p n, (p, n) ∈ N → F p n = n) → map_nodes F N = N.
Proof.
  intros HF. unfold map_nodes. induction N as [|[q n] N IH]; [done|].
  rewrite fmap_cons. simpl. rewrite HF by by left.
  f_equal. apply IH. intros p n' Hin. apply HF. by right.
Qed.

Lemma add_edge_id a b s N :
  (∀ n, (a, n) ∈ N → b ∈ edges_at (output_edges n) s) →
  (∀ n, (b, n) ∈ N → a ∈ edges_at (input_edges n) s) →
  add_edge a b s N = N.
Proof.
  intros Hout Hin. unfold add_edge, update_node.
  rewrite (map_nodes_id _ N).
  - apply map_nodes_id. intros p n Hn.
    destruct (decide (p = b)) as [->|]; [|done].
    unfold add_in. rewrite map_insert_id by by apply Hin.
    apply with_edges_id.
  - intros p n Hn. destruct (decide (p = a)) as [->|]; [|done].
    unfold add_out. rewrite map_insert_id by by apply Hout.
    apply with_edges_id.
Qed.

(** C6. Inserting an edge is idempotent: a second [insert_edge] with the
    same nodes and state changes nothing, and so does any [insert_edge] for
    an edge that both of its ends record already; no vector grows and no
    set gets a second copy. *)
Theorem insert_edge_idempotent (g : StateFlowGraph) (from to : nat)
    (state : AsyncState) :
  insert_edge (insert_edge g from to state) from to state
    = insert_edge g from to state ∧
  ((∀ n, (from, n) ∈ nodes_ g → to ∈ edges_at (output_edges n) state) →
   (∀ n, (to, n) ∈ nodes_ g → from ∈ edges_at (input_edges n) state) →
   insert_edge g from to state = g).
Proof.
  assert (∀ g', (∀ n, (from, n) ∈ nodes_ g' →
                      to ∈ edges_at (output_edges n) state) →
                (∀ n, (to, n) ∈ nodes_ g' →
                      from ∈ edges_at (input_edges n) state) →
                insert_edge g' from to state = g') as Hid.
  { intros g' Hout Hin. unfold insert_edge.
    rewrite add_edge_id by done. apply with_nodes_id. }
  split; [|apply Hid]. apply Hid; simpl; unfold add_edge, update_node.
  - intros n (n1 & -> & (n0 & -> & _)%elem_of_map_nodes)%elem_of_map_nodes.
    destruct (decide (from = to)), (decide (from = from)); simpl; try done;
      rewrite elem_of_edges_at_map_insert; by right.
  - intros n (n1 & -> & _)%elem_of_map_nodes.
    destruct (decide (to = to)); [|done]. simpl.
    rewrite elem_of_edges_at_map_insert. by right.
Qed.

(** *** C3 *)


(** *** C1 *)




(** *** The status of a node, and the count of pending tasks *)

(** X14. A node is never both pending and executed, and it is neither
    exactly when its [pending_node_id] is below -1. [mark_executed] makes
    any node executed and not pending, changes no other field, does nothing
    to a node that is executed, and so does nothing when it is repeated. *)
Theorem node_status (n : Node) :
  ¬ (pending n = true ∧ executed n = true) ∧
  (pending n = false ∧ executed n = false ↔ pending_node_id n < -1) ∧
  executed (mark_executed n) = true ∧
  pending (mark_executed n) = false ∧
  mark_executed n = with_ids (node_id n) (-1) n ∧
  (executed n = true → mark_executed n = n) ∧
  mark_executed (mark_executed n) = mark_executed n.
Proof.
  unfold pending, executed.
  split; [|split; [|split; [|split; [|split; [|split]]]]]; try done.
  - intros [Hp He]. apply bool_decide_eq_true in Hp, He. lia.
  - rewrite !bool_decide_eq_false. lia.
  - intros He%bool_decide_eq_true. destruct n. simpl in *. by subst.
Qed.

(** X15. [num_pending_tasks] returns [size() - first_pending_task_index_]
    whenever that difference fits an [int], although it is computed on
    unsigned 64-bit integers: in particular it is between 0 and the size
    when [first_pending_task_index_] is, and it is negative, not a large
    positive number, when the index is beyond the size. In every case it is
    the difference brought into the range of [int] modulo [2 ^ 32]. *)
Theorem num_pending_tasks_exact (g : StateFlowGraph) :
  num_pending_tasks_int g = to_int (num_pending_tasks g) ∧
  (- 2 ^ 31 ≤ Z.of_nat (size g) - first_pending_task_index_ g < 2 ^ 31 →
     num_pending_tasks_int g
     = Z.of_nat (size g) - first_pending_task_index_ g) ∧
  (0 ≤ first_pending_task_index_ g ≤ Z.of_nat (size g) →
   Z.of_nat (size g) < 2 ^ 31 →
     0 ≤ num_pending_tasks_int g ≤ Z.of_nat (size g)) ∧
  (Z.of_nat (size g) < first_pending_task_index_ g < 2 ^ 31 →
     num_pending_tasks_int g < 0).
Proof.
  assert (num_pending_tasks_int g = to_int (num_pending_tasks g)) as Heq.
  { unfold num_pending_tasks_int, num_pending_tasks, to_int, to_size_t.
    f_equal. generalize (Z.of_nat (length (nodes_ g))).
    generalize (first_pending_task_index_ g). intros f N.
    Z.div_mod_to_equations. lia. }
  assert (∀ x, - 2 ^ 31 ≤ x < 2 ^ 31 → to_int x = x) as Hfit.
  { intros x Hx. unfold to_int. Z.div_mod_to_equations. lia. }
  split; [done|]. rewrite Heq. unfold num_pending_tasks, size.
  split; [|split].
  - apply Hfit.
  - intros Hf Hs. rewrite Hfit; lia.
  - intros Hf. rewrite Hfit; lia.
Qed.

End state_flow_graph.

(** *** The scenario of the specification

    Task 1 writes state 7, task 2 reads it, task 3 writes it without reading
    it. Records, states and structures are numbers here; the initial node is
    at address 1 and the tasks at 2, 3 and 4. *)

Definition scenario_meta (r : nat) : @TaskMeta nat _ _ nat :=
  match r with
  | 2%nat => {| input_states := {[7%nat]}; output_states := ∅;
                listgen_snode := None |}
  | _ => {| input_states := ∅; output_states := {[7%nat]};
            listgen_snode := None |}
  end.

Definition scenario : @StateFlowGraph nat _ _ nat _ _ nat :=
  insert_tasks scenario_meta (new_graph 0%nat) [1; 2; 3]%nat false.

(** A decidable fact about the scenario, by evaluation. *)
Ltac decide_by_compute :=
  unfold live; refine (bool_decide_unpack _ _); vm_compute; exact I.




Lemma has_state_flow_iff_witness :
  let task2 : @Node nat _ _ nat nat :=
    {| rec := 2%nat; meta := Some (scenario_meta 2); is_initial_node := false;
       node_id := 2; pending_node_id := 1;
       input_edges := []; output_edges := [] |} in
  meta task2 = Some (scenario_meta 2) ∧
  has_state_flow task2 7%nat task2 = Some true ∧
  has_state_flow task2 8%nat task2 = Some false.
Proof.
  intros task2. split; [reflexivity|].
  destruct (has_state_flow_iff task2 7%nat task2 (scenario_meta 2) eq_refl)
    as (H7 & _).
  destruct (has_state_flow_iff task2 8%nat task2 (scenario_meta 2) eq_refl)
    as (H8 & _).
  split; [exact H7|exact H8].
Defined.

Lemma insert_edge_idempotent_witness :
  insert_edge scenario 2%nat 3%nat 7%nat = scenario.
Proof.
  apply (proj2 (insert_edge_idempotent scenario 2%nat 3%nat 7%nat)).
  - intros n Hn. apply list_elem_of_In in Hn. vm_compute in Hn.
    destruct Hn as [Hn|[Hn|[Hn|[Hn|[]]]]]; inversion Hn.
    decide_by_compute.
  - intros n Hn. apply list_elem_of_In in Hn. vm_compute in Hn.
    destruct Hn as [Hn|[Hn|[Hn|[Hn|[]]]]]; inversion Hn.
    decide_by_compute.
Defined.







End SFG.
